(** * DevHive workflows: swarm and planning state machines

    A shallow embedding of [packages/workflows/src/swarm/{graph,nodes}.ts],
    [packages/workflows/src/planning/nodes.ts], [types/state.ts] and of the
    initial state built by [packages/cli/src/commands/swarm/start.ts].

    Conventions of the embedding:
    - an optional TypeScript field [f?: T] is an [option T];
    - [Partial<SwarmState>] is a record of options, merged into the state by
      the channel reducers [(x, y) => y ?? x];
    - the content generation service is an oracle: every call either rejects
      ([GenThrows]) or yields a text; what the node does with that text inside
      its [try] block either raises (caught by the node's [catch]:
      [GenText None]) or yields the parsed object ([GenText (Some j)]);
    - an [async] node either resolves with a state delta ([Ok]) or rejects
      ([Throw]);
    - what a node obtains from outside its own text is an input of the
      embedding: the answers of the generation service, and the outcome of
      loading the scrum master's prompt ([getAgentPrompt] of
      [agents/personas.ts], which [require]s [agents/parallelization.ts]);
    - a TypeScript [number] that comes from the command line is a
      [JsNumber], not a natural number;
    - LangGraph itself is not part of the embedding: [step] and [runGraph]
      describe the super-steps of a compiled graph, and the recursion limit
      of [graph.invoke] is a parameter of [invoke]. *)

From Stdlib Require Import String List Bool Arith ZArith Lia.
From Stdlib Require Import DecimalString DecimalNat.
Import ListNotations.
Open Scope string_scope.
Open Scope list_scope.

Set Implicit Arguments.

(** ** JavaScript numbers *)

(** A [number] as far as the workflows look at one: [NaN], the two
    infinities, and the finite values, each of which is a fraction
    [num / den] (a double is one; [-0] and [0] are not told apart, both are
    falsy and both have length 0). *)
Inductive JsNumber :=
| NaN : JsNumber
| Infinite (negative : bool) : JsNumber
| Finite (num : Z) (den : positive) : JsNumber.

(** The natural number [n] as a [number]. *)
Definition ofNat (n : nat) : JsNumber := Finite (Z.of_nat n) 1.
Coercion ofNat : nat >-> JsNumber.

(** [x || d] for an optional number [x]: [undefined], [NaN] and zero are
    falsy. *)
Definition orNumber (x : option JsNumber) (d : JsNumber) : JsNumber :=
  match x with
  | None => d
  | Some NaN => d
  | Some (Finite num den) => if (num =? 0)%Z then d else Finite num den
  | Some (Infinite negative) => Infinite negative
  end.

(** [ToLength(n)]: [NaN] gives 0; otherwise the number is truncated towards
    zero and clamped to [0 .. 2^53 - 1].  (For a negative fraction the
    quotient below is the floor, not the truncation; both are clamped to
    0.) *)
Definition toLength (n : JsNumber) : Z :=
  match n with
  | NaN => 0
  | Infinite negative => if negative then 0 else 2 ^ 53 - 1
  | Finite num den => Z.min (Z.max (num / Zpos den) 0) (2 ^ 53 - 1)
  end.

(** The largest length [new Array(len)] accepts; above it the constructor
    throws a [RangeError]. *)
Definition maxArrayLength : Z := 2 ^ 32 - 1.

(** ** types/state.ts *)

Inductive TaskStatus := T_pending | T_in_progress | T_completed.

Module Task.
Record t := mk {
  id : string;
  description : string;
  status : TaskStatus;
  assignedTo : option string
}.
End Task.

Inductive StoryStatus := S_draft | S_ready | S_in_progress | S_review | S_completed.

Module Story.
Record t := mk {
  id : string;
  epicId : string;
  title : string;
  description : string;
  acceptanceCriteria : list string;
  tasks : list Task.t;
  assignedAgent : option string;
  status : StoryStatus;
  dependencies : option (list string)
}.
End Story.

Inductive AgentState := A_idle | A_working | A_blocked | A_error.

Module AgentStatus.
Record t := mk {
  id : string;
  name : string;
  assignedStory : option string;
  status : AgentState;
  progress : option nat
}.
End AgentStatus.

Inductive FileAction := F_create | F_modify | F_delete.

Module FileChange.
Record t := mk {
  path : string;
  action : FileAction;
  content : option string;
  diff : option string
}.
End FileChange.

Inductive ChangeStatus := C_pending | C_reviewed | C_merged.

Module CodeChange.
Record t := mk {
  storyId : string;
  agentId : string;
  files : list FileChange.t;
  commitMessage : string;
  status : ChangeStatus
}.
End CodeChange.

Module TestFailure.
Record t := mk {
  test : string;
  error : string
}.
End TestFailure.

(** The objects [qaReviewNode] stores in [testResults] ([as any]): the
    story id, the spread of [review.testResults], [failures], [approved]. *)
Module TestResult.
Record t := mk {
  storyId : string;
  passed : option Z;
  failed : option Z;
  coverage : option Z;
  failures : list TestFailure.t;
  approved : bool
}.
End TestResult.

Inductive Phase := P_assign | P_execute | P_review | P_integrate | P_complete.

Record SwarmState := mkSwarmState {
  activeStories : list Story.t;
  completedStories : list Story.t;
  agents : list AgentStatus.t;
  maxAgents : JsNumber;
  storyQueue : list Story.t;
  codeChanges : list CodeChange.t;
  testResults : list TestResult.t;
  phase : Phase;
  blockedStories : list string
}.

(** [Partial<SwarmState>] *)
Record SwarmDelta := mkSwarmDelta {
  d_activeStories : option (list Story.t);
  d_completedStories : option (list Story.t);
  d_agents : option (list AgentStatus.t);
  d_maxAgents : option JsNumber;
  d_storyQueue : option (list Story.t);
  d_codeChanges : option (list CodeChange.t);
  d_testResults : option (list TestResult.t);
  d_phase : option Phase;
  d_blockedStories : option (list string)
}.

(** [{ phase: p }] *)
Definition phaseOnly (p : Phase) : SwarmDelta :=
  mkSwarmDelta None None None None None None None (Some p) None.

(** The channel reducer [(x, y) => y ?? x]. *)
Definition coalesce {A : Type} (x : A) (y : option A) : A :=
  match y with
  | Some v => v
  | None => x
  end.

(** [swarmChannels]: how a node's delta is merged into the state. *)
Definition applyDelta (s : SwarmState) (d : SwarmDelta) : SwarmState :=
  {| activeStories := coalesce (activeStories s) (d_activeStories d);
     completedStories := coalesce (completedStories s) (d_completedStories d);
     agents := coalesce (agents s) (d_agents d);
     maxAgents := coalesce (maxAgents s) (d_maxAgents d);
     storyQueue := coalesce (storyQueue s) (d_storyQueue d);
     codeChanges := coalesce (codeChanges s) (d_codeChanges d);
     testResults := coalesce (testResults s) (d_testResults d);
     phase := coalesce (phase s) (d_phase d);
     blockedStories := coalesce (blockedStories s) (d_blockedStories d) |}.

(** ** The generation oracle and node results *)

Inductive Gen (A : Type) :=
| GenThrows : Gen A
| GenText : option A -> Gen A.
Arguments GenThrows {A}.
Arguments GenText {A} _.

Inductive NodeResult (D : Type) :=
| Ok : D -> NodeResult D
| Throw : string -> NodeResult D.
Arguments Ok {D} _.
Arguments Throw {D} _.

(** The message of a rejection coming from the generation service itself;
    its text is the service's and is not inspected by any node. *)
Definition generationError : string := "generateContent rejected".

(** ** agents/personas.ts *)

Module Personas.

Inductive AgentId := analyst | pm | architect | po | sm | dev | qa.

(** [getAgentPrompt(agentId, options)].  [basePrompt agentId] is
    [createSystemPrompt(personas[agentId])], the text built from the persona
    files; [load] is the outcome of [require('./parallelization.js')]: the
    function [getParallelSMPrompt] of that module, or the error raised by
    the call. *)
Definition getAgentPrompt (basePrompt : AgentId -> string)
    (load : NodeResult (string -> string))
    (agentId : AgentId) (parallelizationMode : bool) : NodeResult string :=
  match agentId, parallelizationMode with
  | sm, true =>
      match load with
      | Ok getParallelSMPrompt => Ok (getParallelSMPrompt (basePrompt sm))
      | Throw e => Throw e
      end
  | _, _ => Ok (basePrompt agentId)
  end.

(** The error raised by the call of [require]; its text is the runtime's
    and is not inspected by any node. *)
Definition requireError : string := "ReferenceError: require is not defined".

(** The call [require('./parallelization.js')] with the files as they
    stand: [personas.ts] is an ES module (it reads [import.meta.url]), where
    [require] is not defined, so the call raises a ReferenceError; nor can
    [parallelization.ts] be loaded otherwise, since the template literal of
    [PARALLEL_SM_ENHANCEMENT] ends at the first backquote of its own text
    (line 48) and the file does not parse. *)
Definition requireParallelization : NodeResult (string -> string) :=
  Throw requireError.

End Personas.

(** [getAgentPrompt('sm', { parallelizationMode: true })] with the files as
    they stand, whatever the persona files hold. *)
Definition promptAsShipped : NodeResult string :=
  Personas.getAgentPrompt (fun _ => "") Personas.requireParallelization
    Personas.sm true.

(** ** Small JavaScript idioms *)

(** [!s.assignedAgent] is false exactly for a non-empty string. *)
Definition truthyStr (o : option string) : bool :=
  match o with
  | Some s => negb (s =? "")
  | None => false
  end.

(** [ids.includes(x)] *)
Definition includes (ids : list string) (x : string) : bool :=
  existsb (String.eqb x) ids.

(** [l.length === 0] *)
Definition isEmpty {A : Type} (l : list A) : bool :=
  match l with
  | [] => true
  | _ :: _ => false
  end.

(** [n > 0] on an optional number; [undefined > 0] is false. *)
Definition gtZero (n : option Z) : bool :=
  match n with
  | Some z => (0 <? z)%Z
  | None => false
  end.

(** Object spreads with overridden fields. *)
Definition draftStory (s : Story.t) (ts : list Task.t) (deps : option (list string))
  : Story.t :=
  Story.mk (Story.id s) (Story.epicId s) (Story.title s) (Story.description s)
           (Story.acceptanceCriteria s) ts (Story.assignedAgent s) S_ready deps.

Definition assignStory (s : Story.t) (agentId : string) : Story.t :=
  Story.mk (Story.id s) (Story.epicId s) (Story.title s) (Story.description s)
           (Story.acceptanceCriteria s) (Story.tasks s) (Some agentId) S_in_progress
           (Story.dependencies s).

Definition completeStory (s : Story.t) : Story.t :=
  Story.mk (Story.id s) (Story.epicId s) (Story.title s) (Story.description s)
           (Story.acceptanceCriteria s) (Story.tasks s) (Story.assignedAgent s)
           S_completed (Story.dependencies s).

Definition assignAgent (a : AgentStatus.t) (storyId : string) : AgentStatus.t :=
  AgentStatus.mk (AgentStatus.id a) (AgentStatus.name a) (Some storyId) A_working
                 (Some 0).

Definition finishAgent (a : AgentStatus.t) : AgentStatus.t :=
  AgentStatus.mk (AgentStatus.id a) (AgentStatus.name a) (AgentStatus.assignedStory a)
                 A_idle (Some 100).

Definition setChangeStatus (c : CodeChange.t) (st : ChangeStatus) : CodeChange.t :=
  CodeChange.mk (CodeChange.storyId c) (CodeChange.agentId c) (CodeChange.files c)
                (CodeChange.commitMessage c) st.

Definition agentIs (st : AgentState) (a : AgentStatus.t) : bool :=
  match AgentStatus.status a, st with
  | A_idle, A_idle | A_working, A_working
  | A_blocked, A_blocked | A_error, A_error => true
  | _, _ => false
  end.

Definition changeIs (st : ChangeStatus) (c : CodeChange.t) : bool :=
  match CodeChange.status c, st with
  | C_pending, C_pending | C_reviewed, C_reviewed | C_merged, C_merged => true
  | _, _ => false
  end.

(** ** swarm/nodes.ts *)

(** What [smDraftNode] reads from [JSON.parse(text).story]: [tasks] and
    [hardDependencies], each [None] when absent (falsy). *)
Record DraftJson := mkDraftJson {
  dj_tasks : option (list Task.t);
  dj_hardDependencies : option (list string)
}.

(** [deps?.some((depId) => completed.every((s) => s.id !== depId))] *)
Definition isBlocked (completed : list Story.t) (deps : option (list string)) : bool :=
  match deps with
  | None => false
  | Some ds =>
      existsb (fun depId =>
                 forallb (fun s => negb (Story.id s =? depId)) completed) ds
  end.

(** [prompt] is the outcome of the call
    [getAgentPrompt('sm', { parallelizationMode: true })], made once the
    backlog is known to be non-empty, before the generation call and outside
    the [try]: when it throws, the node rejects.  [gen] is the outcome of
    the generation call that follows. *)
Definition smDraftNode (prompt : NodeResult string) (gen : Gen DraftJson)
    (state : SwarmState) : NodeResult SwarmDelta :=
  match storyQueue state with
  | [] => Ok (phaseOnly P_complete)
  | nextStory :: _ =>
      match prompt with
      | Throw e => Throw e
      | Ok systemPrompt =>
          match gen with
          | GenThrows => Throw generationError
          | GenText None => Ok (phaseOnly P_assign)
          | GenText (Some parsed) =>
              let draftedStory :=
                draftStory nextStory
                  (coalesce [] (dj_tasks parsed))
                  (match dj_hardDependencies parsed with
                   | Some hd => Some hd
                   | None => Story.dependencies nextStory
                   end) in
              if isBlocked (completedStories state) (Story.dependencies draftedStory)
              then Ok (mkSwarmDelta None None None None
                         (Some (tl (storyQueue state))) None None (Some P_assign)
                         (Some (blockedStories state ++ [Story.id draftedStory])))
              else Ok (mkSwarmDelta
                         (Some (activeStories state ++ [draftedStory]))
                         None None None
                         (Some (tl (storyQueue state))) None None (Some P_assign)
                         None)
          end
      end
  end.

Module Assignment.
Record t := mk {
  storyId : string;
  agentId : string
}.
End Assignment.

Definition idleAgents (state : SwarmState) : list AgentStatus.t :=
  filter (agentIs A_idle) (agents state).

Definition unassignedStories (state : SwarmState) : list Story.t :=
  filter (fun s => negb (truthyStr (Story.assignedAgent s))) (activeStories state).

(** [unassignedStories.slice(0, idleAgents.length).map((story, i) =>
    ({ storyId: story.id, agentId: idleAgents[i].id }))] *)
Definition assignments (state : SwarmState) : list Assignment.t :=
  map (fun p => Assignment.mk (Story.id (fst p)) (AgentStatus.id (snd p)))
      (combine (firstn (length (idleAgents state)) (unassignedStories state))
               (idleAgents state)).

Definition updateStory (asg : list Assignment.t) (story : Story.t) : Story.t :=
  match find (fun a => Assignment.storyId a =? Story.id story) asg with
  | Some a => assignStory story (Assignment.agentId a)
  | None => story
  end.

Definition updateAgent (asg : list Assignment.t) (agent : AgentStatus.t)
  : AgentStatus.t :=
  match find (fun a => Assignment.agentId a =? AgentStatus.id agent) asg with
  | Some a => assignAgent agent (Assignment.storyId a)
  | None => agent
  end.

Definition assignNode (state : SwarmState) : NodeResult SwarmDelta :=
  if isEmpty (idleAgents state) || isEmpty (unassignedStories state)
  then Ok (phaseOnly P_execute)
  else
    Ok (mkSwarmDelta
          (Some (map (updateStory (assignments state)) (activeStories state)))
          None
          (Some (map (updateAgent (assignments state)) (agents state)))
          None None None None (Some P_execute) None).

(** What [devSwarmNode] reads from the parsed implementation. *)
Record DevJson := mkDevJson {
  dv_files : list FileChange.t;
  dv_tests : list FileChange.t;
  dv_commitMessage : string
}.

(** The settled value of one element of [devPromises] / [reviewPromises]. *)
Inductive Settled (A : Type) :=
| Rejected : Settled A
| Null : Settled A
| Value : A -> Settled A.
Arguments Rejected {A}.
Arguments Null {A}.
Arguments Value {A} _.

(** [state.activeStories.find((s) => s.id === sid)], where [sid] may be
    [undefined] (then no story matches). *)
Definition findStory (stories : list Story.t) (sid : option string) : option Story.t :=
  match sid with
  | Some i => find (fun s => Story.id s =? i) stories
  | None => None
  end.

Definition devPromise (gen : AgentStatus.t -> Story.t -> Gen DevJson)
    (state : SwarmState) (agent : AgentStatus.t) : Settled CodeChange.t :=
  match findStory (activeStories state) (AgentStatus.assignedStory agent) with
  | None => Null
  | Some story =>
      match gen agent story with
      | GenThrows => Rejected
      | GenText None => Null
      | GenText (Some parsed) =>
          Value (CodeChange.mk (Story.id story) (AgentStatus.id agent)
                   (dv_files parsed ++ dv_tests parsed)
                   (dv_commitMessage parsed) C_pending)
      end
  end.

(** [(await Promise.all(ps)).filter((x) => x !== null)]: [None] when one of
    the promises rejects. *)
Fixpoint awaitAll {A : Type} (ps : list (Settled A)) : option (list A) :=
  match ps with
  | [] => Some []
  | Rejected :: _ => None
  | Null :: rest => awaitAll rest
  | Value v :: rest =>
      match awaitAll rest with
      | Some vs => Some (v :: vs)
      | None => None
      end
  end.

Definition workingAgents (state : SwarmState) : list AgentStatus.t :=
  filter (agentIs A_working) (agents state).

Definition devSwarmNode (gen : AgentStatus.t -> Story.t -> Gen DevJson)
    (state : SwarmState) : NodeResult SwarmDelta :=
  if isEmpty (workingAgents state) then Ok (phaseOnly P_review)
  else
    match awaitAll (map (devPromise gen state) (workingAgents state)) with
    | None => Throw generationError
    | Some changes =>
        let updatedAgents :=
          map (fun agent =>
                 if existsb (fun c => CodeChange.agentId c =? AgentStatus.id agent)
                            changes
                 then finishAgent agent
                 else agent)
              (agents state) in
        Ok (mkSwarmDelta None None (Some updatedAgents) None None
              (Some (codeChanges state ++ changes)) None (Some P_review) None)
    end.

(** What [qaReviewNode] reads from the parsed review.  [rv_storyId] is a
    [storyId] key inside [review.testResults]: the spread
    [{ storyId: change.storyId, ...review.testResults, ... }] lets it replace
    the change's story id. *)
Record ReviewJson := mkReviewJson {
  rv_approved : bool;
  rv_storyId : option string;
  rv_passed : option Z;
  rv_failed : option Z;
  rv_coverage : option Z;
  rv_issues : list string
}.

Definition reviewPromise (gen : CodeChange.t -> Story.t -> Gen ReviewJson)
    (state : SwarmState) (change : CodeChange.t) : Settled TestResult.t :=
  match find (fun s => Story.id s =? CodeChange.storyId change) (activeStories state) with
  | None => Null
  | Some story =>
      match gen change story with
      | GenThrows => Rejected
      | GenText None => Null
      | GenText (Some review) =>
          Value (TestResult.mk
                   (coalesce (CodeChange.storyId change) (rv_storyId review))
                   (rv_passed review) (rv_failed review) (rv_coverage review)
                   (map (fun issue => TestFailure.mk "QA Review" issue)
                        (rv_issues review))
                   (rv_approved review))
      end
  end.

Definition pendingChanges (state : SwarmState) : list CodeChange.t :=
  filter (changeIs C_pending) (codeChanges state).

Definition qaReviewNode (gen : CodeChange.t -> Story.t -> Gen ReviewJson)
    (state : SwarmState) : NodeResult SwarmDelta :=
  if isEmpty (pendingChanges state) then Ok (phaseOnly P_integrate)
  else
    match awaitAll (map (reviewPromise gen state) (pendingChanges state)) with
    | None => Throw generationError
    | Some results =>
        let updatedChanges :=
          map (fun change =>
                 match find (fun r => TestResult.storyId r =? CodeChange.storyId change)
                            results with
                 | Some review =>
                     if TestResult.approved review
                     then setChangeStatus change C_reviewed
                     else change
                 | None => change
                 end)
              (codeChanges state) in
        let hasFailures := existsb (fun r => gtZero (TestResult.failed r)) results in
        Ok (mkSwarmDelta None None None None None (Some updatedChanges)
              (Some results)
              (Some (if hasFailures then P_execute else P_integrate)) None)
    end.

Definition reviewedChanges (state : SwarmState) : list CodeChange.t :=
  filter (changeIs C_reviewed) (codeChanges state).

Definition completedStoryIds (state : SwarmState) : list string :=
  map CodeChange.storyId (reviewedChanges state).

(** The stories [integrateNode] moves to [completedStories]. *)
Definition newlyCompleted (state : SwarmState) : list Story.t :=
  map completeStory
      (filter (fun s => includes (completedStoryIds state) (Story.id s))
              (activeStories state)).

Definition remainingActive (state : SwarmState) : list Story.t :=
  filter (fun s => negb (includes (completedStoryIds state) (Story.id s)))
         (activeStories state).

(** [blockedStory.dependencies?.every((depId) => done.some((s) => s.id === depId))];
    an absent dependency list gives [undefined], which is falsy. *)
Definition allDepsCompleted (done : list Story.t) (blockedStory : Story.t) : bool :=
  match Story.dependencies blockedStory with
  | None => false
  | Some ds => forallb (fun depId => existsb (fun s => Story.id s =? depId) done) ds
  end.

(** One iteration of [for (const blockedId of state.blockedStories)], on the
    pair [(unblocked, stillBlocked)]. *)
Definition unblockStep (state : SwarmState) (acc : list string * list string)
    (blockedId : string) : list string * list string :=
  match find (fun s => Story.id s =? blockedId) (storyQueue state) with
  | None => acc
  | Some blockedStory =>
      if allDepsCompleted (completedStories state ++ newlyCompleted state) blockedStory
      then (fst acc ++ [blockedId], snd acc)
      else (fst acc, snd acc ++ [blockedId])
  end.

Definition unblockLoop (state : SwarmState) : list string * list string :=
  fold_left (unblockStep state) (blockedStories state) ([], []).

Definition updatedQueue (state : SwarmState) : list Story.t :=
  filter (fun s => negb (includes (blockedStories state) (Story.id s)))
         (storyQueue state)
  ++ filter (fun s => includes (fst (unblockLoop state)) (Story.id s))
            (storyQueue state).

Definition integrateNode (state : SwarmState) : NodeResult SwarmDelta :=
  if isEmpty (reviewedChanges state) then Ok (phaseOnly P_complete)
  else
    let mergedChanges :=
      map (fun change =>
             if changeIs C_reviewed change
             then setChangeStatus change C_merged
             else change)
          (codeChanges state) in
    let hasMoreWork :=
      negb (isEmpty (updatedQueue state)) || negb (isEmpty (remainingActive state)) in
    Ok (mkSwarmDelta
          (Some (remainingActive state))
          (Some (completedStories state ++ newlyCompleted state))
          None None
          (Some (updatedQueue state))
          (Some mergedChanges)
          None
          (Some (if hasMoreWork then P_assign else P_complete))
          (Some (snd (unblockLoop state)))).

(** ** swarm/graph.ts *)

Inductive Node := sm_draft | assign | dev_swarm | qa_review | integrate | END.

Definition hasMoreWork (state : SwarmState) : Node :=
  if negb (isEmpty (storyQueue state)) || negb (isEmpty (activeStories state))
  then assign
  else END.

Definition needsMoreDev (state : SwarmState) : Node :=
  if existsb (fun result => gtZero (TestResult.failed result)) (testResults state)
  then dev_swarm
  else integrate.

(** The edges of [createSwarmGraph], evaluated on the state produced by the
    node that just ran. *)
Definition nextNode (n : Node) (state : SwarmState) : Node :=
  match n with
  | sm_draft => assign
  | assign => dev_swarm
  | dev_swarm => qa_review
  | qa_review => needsMoreDev state
  | integrate => hasMoreWork state
  | END => END
  end.

Definition entryPoint : Node := sm_draft.

(** What a node execution obtains from outside: the outcome of loading the
    scrum master's prompt, and the answers of the generation service. *)
Record Oracle := mkOracle {
  smPrompt : NodeResult string;
  draftGen : Gen DraftJson;
  devGen : AgentStatus.t -> Story.t -> Gen DevJson;
  qaGen : CodeChange.t -> Story.t -> Gen ReviewJson
}.

Definition runNode (n : Node) (o : Oracle) (state : SwarmState)
  : NodeResult SwarmDelta :=
  match n with
  | sm_draft => smDraftNode (smPrompt o) (draftGen o) state
  | assign => assignNode state
  | dev_swarm => devSwarmNode (devGen o) state
  | qa_review => qaReviewNode (qaGen o) state
  | integrate => integrateNode state
  | END => Ok (mkSwarmDelta None None None None None None None None None)
  end.

Definition Config : Type := Node * SwarmState.

(** One super-step of the compiled graph: run the current node, merge its
    delta through the channels, follow the edge.  A rejecting node aborts
    [graph.invoke]; there is no step out of [END].  The relation has every
    super-step [graph.invoke] can make; [graph.invoke] itself makes no more
    of them than its recursion limit allows (see [invoke]). *)
Inductive step : Config -> Config -> Prop :=
| step_run : forall n o state d,
    n <> END ->
    runNode n o state = Ok d ->
    step (n, state) (nextNode n (applyDelta state d), applyDelta state d).

Inductive steps : Config -> Config -> Prop :=
| steps_refl : forall c, steps c c
| steps_snoc : forall c1 c2 c3, steps c1 c2 -> step c2 c3 -> steps c1 c3.

(** The configuration after [fuel] super-steps with a fixed oracle (or at
    [END], when that is reached before): a prefix of the run, not the run
    as [graph.invoke] carries it out, which is [invoke] below; [None] when a
    node rejects. *)
Fixpoint runGraph (fuel : nat) (o : Oracle) (n : Node) (state : SwarmState)
  : option Config :=
  match fuel with
  | 0 => Some (n, state)
  | S k =>
      match n with
      | END => Some (END, state)
      | _ =>
          match runNode n o state with
          | Throw _ => None
          | Ok d => runGraph k o (nextNode n (applyDelta state d)) (applyDelta state d)
          end
      end
  end.

(** The three ways [graph.invoke(state)] ends. *)
Inductive Invocation :=
| Returns : SwarmState -> Invocation
| NodeRejects : Invocation
| OutOfSteps : Invocation.

(** [graph.invoke(state)]: the state at [END]; the rejection of a node; or,
    when [END] is not reached within [recursionLimit] super-steps,
    LangGraph's GraphRecursionError. *)
Definition invoke (recursionLimit : nat) (o : Oracle) (state : SwarmState)
  : Invocation :=
  match runGraph recursionLimit o entryPoint state with
  | Some (END, final) => Returns final
  | Some _ => OutOfSteps
  | None => NodeRejects
  end.

(** LangGraph's recursion limit when the caller passes none, as
    [runSwarmWorkflow] and [runPlanningWorkflow] do. *)
Definition defaultRecursionLimit : nat := 25.

(** ** cli/src/commands/swarm/start.ts *)

(** [`${n}`] for a non-negative integer. *)
Definition showNat (n : nat) : string :=
  NilEmpty.string_of_uint (Nat.to_uint n).

(** [Array.from({ length }, (_, i) => ({ id: `dev-${i + 1}`,
    name: `Dev Agent ${i + 1}`, status: 'idle' }))] for the array length
    [maxAgents] that [ToLength] gives. *)
Definition makeAgents (maxAgents : nat) : list AgentStatus.t :=
  map (fun i =>
         AgentStatus.mk ("dev-" ++ showNat (i + 1)) ("Dev Agent " ++ showNat (i + 1))
                        None A_idle None)
      (seq 0 maxAgents).

(** [initialState] of [runSwarmWorkflow], for the backlog [stories] and
    [options.maxAgents || 3]: the value of the object literal, which
    [Array.from] lets through when the length is one an array can have (see
    [buildInitialState]).  The roster has [ToLength(maxAgents)] workers, the
    field [maxAgents] holds the number itself. *)
Definition initialState (stories : list Story.t) (optMaxAgents : option JsNumber)
  : SwarmState :=
  let maxAgents := orNumber optMaxAgents 3 in
  {| storyQueue := stories;
     activeStories := [];
     completedStories := [];
     agents := makeAgents (Z.to_nat (toLength maxAgents));
     maxAgents := maxAgents;
     codeChanges := [];
     testResults := [];
     phase := P_assign;
     blockedStories := [] |}.

(** The evaluation of that object literal: [Array.from] throws a RangeError
    for a length above [maxArrayLength], and [runSwarmWorkflow] rejects
    before the graph is invoked. *)
Definition buildInitialState (stories : list Story.t)
    (optMaxAgents : option JsNumber) : NodeResult SwarmState :=
  if Z.ltb maxArrayLength (toLength (orNumber optMaxAgents 3))
  then Throw "Invalid array length"
  else Ok (initialState stories optMaxAgents).

(** The states a swarm is started from (the [initialState] of start.ts, the
    usage of the README): a backlog and a roster of idle workers, nothing in
    flight yet. *)
Definition fresh (state : SwarmState) : Prop :=
  activeStories state = []
  /\ completedStories state = []
  /\ codeChanges state = []
  /\ testResults state = []
  /\ blockedStories state = []
  /\ forall a, In a (agents state) ->
       AgentStatus.status a = A_idle /\ AgentStatus.assignedStory a = None.

(** A configuration reached by [graph.invoke(init)] from a fresh state. *)
Definition SwarmRun (c : Config) : Prop :=
  exists init, fresh init /\ steps (entryPoint, init) c.

(** The state after a node resolved; a rejecting node leaves no new state. *)
Definition after (r : NodeResult SwarmDelta) (state : SwarmState) : SwarmState :=
  match r with
  | Ok d => applyDelta state d
  | Throw _ => state
  end.

(** ** planning/nodes.ts: the nodes guarded by a precondition *)

Inductive ArtifactType :=
  Art_project_brief | Art_prd | Art_architecture | Art_ux_spec | Art_story | Art_epic.

(** [lastModified] is [new Date()], read from the clock at node run time. *)
Module Artifact.
Record t := mk {
  type : ArtifactType;
  content : string;
  version : nat;
  createdBy : string;
  lastModified : nat
}.
End Artifact.

(** A story object as it comes out of [JSON.parse] in [poShardNode]. *)
Module RawStory.
Record t := mk {
  id : string;
  title : string;
  description : string;
  acceptanceCriteria : list string;
  dependencies : option (list string);
  tasks : list Task.t
}.
End RawStory.

Inductive EpicStatus := E_planned | E_in_progress | E_completed.

(** [{ ...epic, status }]: the stories of an epic stay the parsed objects. *)
Module Epic.
Record t := mk {
  id : string;
  title : string;
  description : string;
  stories : list RawStory.t;
  status : EpicStatus
}.
End Epic.

Module RawEpic.
Record t := mk {
  id : string;
  title : string;
  description : string;
  stories : list RawStory.t
}.
End RawEpic.

Inductive PlanningPhase :=
  PP_brief | PP_prd | PP_ux | PP_architecture | PP_validation | PP_sharding | PP_complete.

Inductive ProjectType := greenfield | brownfield.

Record PlanningState := mkPlanningState {
  projectBrief : option Artifact.t;
  prd : option Artifact.t;
  uxSpec : option Artifact.t;
  architecture : option Artifact.t;
  epics : list Epic.t;
  stories : list Story.t;
  currentPhase : PlanningPhase;
  validationIssues : list string;
  needsUserInput : bool;
  userMessage : option string;
  projectType : ProjectType;
  includeUX : bool
}.

(** [Partial<PlanningState>], with the fields the nodes below write. *)
Record PlanningDelta := mkPlanningDelta {
  pd_prd : option Artifact.t;
  pd_uxSpec : option Artifact.t;
  pd_architecture : option Artifact.t;
  pd_epics : option (list Epic.t);
  pd_stories : option (list Story.t);
  pd_currentPhase : option PlanningPhase;
  pd_validationIssues : option (list string);
  pd_needsUserInput : option bool
}.

(** The outcome of [callAgent]: it rejects, or resolves with the text. *)
Inductive Reply :=
| ReplyThrows : Reply
| ReplyText : string -> Reply.

Definition pmNode (reply : Reply) (now : nat) (state : PlanningState)
  : NodeResult PlanningDelta :=
  match projectBrief state with
  | None => Throw "Project brief is required for PRD creation"
  | Some _ =>
      match reply with
      | ReplyThrows => Throw generationError
      | ReplyText prdContent =>
          Ok (mkPlanningDelta
                (Some (Artifact.mk Art_prd prdContent 1 "pm" now))
                None None None None
                (Some (if includeUX state then PP_ux else PP_architecture))
                None None)
      end
  end.

Definition uxNode (reply : Reply) (now : nat) (state : PlanningState)
  : NodeResult PlanningDelta :=
  match prd state with
  | None => Throw "PRD is required for UX spec creation"
  | Some _ =>
      match reply with
      | ReplyThrows => Throw generationError
      | ReplyText uxContent =>
          Ok (mkPlanningDelta None
                (Some (Artifact.mk Art_ux_spec uxContent 1 "ux-expert" now))
                None None None (Some PP_architecture) None None)
      end
  end.

Definition architectNode (reply : Reply) (now : nat) (state : PlanningState)
  : NodeResult PlanningDelta :=
  match prd state with
  | None => Throw "PRD is required for architecture creation"
  | Some _ =>
      match reply with
      | ReplyThrows => Throw generationError
      | ReplyText archContent =>
          Ok (mkPlanningDelta None None
                (Some (Artifact.mk Art_architecture archContent 1 "architect" now))
                None None (Some PP_validation) None None)
      end
  end.

Definition plannedEpic (epic : RawEpic.t) : Epic.t :=
  Epic.mk (RawEpic.id epic) (RawEpic.title epic) (RawEpic.description epic)
          (RawEpic.stories epic) E_planned.

Definition shardedStory (epic : RawEpic.t) (story : RawStory.t) : Story.t :=
  Story.mk (RawStory.id story) (RawEpic.id epic) (RawStory.title story)
           (RawStory.description story) (RawStory.acceptanceCriteria story)
           (RawStory.tasks story) None S_draft (RawStory.dependencies story).

(** [parse] is what the [try] block makes of the reply: the text of the
    caught error, or the parsed [epics]. *)
Definition poShardNode (reply : Reply) (parse : string -> string + list RawEpic.t)
    (state : PlanningState) : NodeResult PlanningDelta :=
  match prd state, architecture state with
  | Some _, Some _ =>
      match reply with
      | ReplyThrows => Throw generationError
      | ReplyText shardingResult =>
          match parse shardingResult with
          | inr parsedEpics =>
              Ok (mkPlanningDelta None None None
                    (Some (map plannedEpic parsedEpics))
                    (Some (flat_map (fun epic => map (shardedStory epic)
                                                     (RawEpic.stories epic))
                                    parsedEpics))
                    (Some PP_complete) None None)
          | inl error =>
              Ok (mkPlanningDelta None None None None None None
                    (Some [("Failed to parse epics/stories: " ++ error)%string])
                    (Some true))
          end
      end
  | _, _ => Throw "PRD and Architecture are required for sharding"
  end.

(** ** Properties of the specification, as predicates on states *)

Definition ids (l : list Story.t) : list string := map Story.id l.

(** Every dependency of every completed story is itself completed. *)
Definition noPrematureCompletion (state : SwarmState) : Prop :=
  forall x ds d,
    In x (completedStories state) ->
    Story.dependencies x = Some ds ->
    In d ds ->
    In d (ids (completedStories state)).

(** The story has a dependency list and all of its ids are ids of [done]. *)
Definition depsAllIn (done : list Story.t) (s : Story.t) : Prop :=
  exists ds, Story.dependencies s = Some ds /\ forall d, In d ds -> In d (ids done).

(** [x] occurs in [l] strictly before an occurrence of [y]. *)
Definition ahead {A : Type} (x y : A) (l : list A) : Prop :=
  exists l1 l2, l = l1 ++ l2 /\ In x l1 /\ In y l2.

(** A backlog story that [integrateNode] leaves alone: its id is not blocked. *)
Definition untouched (state : SwarmState) (u : Story.t) : Prop :=
  In u (storyQueue state) /\ ~ In (Story.id u) (blockedStories state).

(** Every dependency id of the story (none when it has no list) is an id
    of [done]. *)
Definition depsSatisfied (done : list Story.t) (s : Story.t) : Prop :=
  forall d, In d (coalesce [] (Story.dependencies s)) -> In d (ids done).

(** The unblocking rule as the specification words it: a blocked id whose
    dependencies are all completed after the merge leaves the blocked set
    and goes in front of the untouched backlog; the others stay blocked. *)
Definition unblocksToFront (state : SwarmState) : Prop :=
  let state' := after (integrateNode state) state in
  forall b s,
    In b (blockedStories state) ->
    find (fun q => Story.id q =? b) (storyQueue state) = Some s ->
    (depsSatisfied (completedStories state') s ->
       ~ In b (blockedStories state') /\
       forall u, untouched state u -> ahead s u (storyQueue state'))
    /\ (~ depsSatisfied (completedStories state') s -> In b (blockedStories state')).

(** Idle workers sorted by id, as the specification words the pairing. *)
Fixpoint insertById (a : AgentStatus.t) (l : list AgentStatus.t) : list AgentStatus.t :=
  match l with
  | [] => [a]
  | b :: rest =>
      if String.leb (AgentStatus.id a) (AgentStatus.id b)
      then a :: b :: rest
      else b :: insertById a rest
  end.

Definition sortById (l : list AgentStatus.t) : list AgentStatus.t :=
  fold_right insertById [] l.

(** Positional pairing of the unassigned stories with the idle workers
    sorted by id: the [k]-th worker of the sorted list is the one put to
    work on the [k]-th unassigned story. *)
Definition pairsWithSortedWorkers (state : SwarmState) : Prop :=
  forall k s a,
    nth_error (unassignedStories state) k = Some s ->
    nth_error (sortById (idleAgents state)) k = Some a ->
    In (assignAgent a (Story.id s)) (agents (after (assignNode state) state)).



(** After the execute phase the worker with id [w] is idle and holds no
    story, and the story [sid] is active and unassigned. *)
Definition releasedForRetry (state' : SwarmState) (w sid : string) : Prop :=
  (forall a, In a (agents state') -> AgentStatus.id a = w ->
     AgentStatus.status a = A_idle /\ AgentStatus.assignedStory a = None)
  /\ (exists s, In s (activeStories state') /\ Story.id s = sid
                /\ Story.assignedAgent s = None).

(** The draft-failure scenario as the specification words it, for a state
    whose backlog head is [h]; [SwarmState] has no issue list, so the
    recorded issue has no counterpart to state. *)
Definition droppedForCycle (state state' : SwarmState) (h : Story.t) : Prop :=
  ~ In (Story.id h) (ids (activeStories state'))
  /\ ~ In (Story.id h) (blockedStories state')
  /\ ~ In (Story.id h) (ids (completedStories state'))
  /\ S (length (storyQueue state')) = length (storyQueue state).

(** ** Scenario data *)

Definition backlogStory (i : string) (deps : list string) : Story.t :=
  Story.mk i "EPIC-001" i "" [] [] None S_draft (Some deps).

Definition storyA : Story.t := backlogStory "A" [].
Definition storyB : Story.t := backlogStory "B" ["A"].

(** A generation service that always succeeds: a draft that keeps the
    story's dependencies, an implementation, an approving review with no
    failed test; and the scrum master's prompt is delivered. *)
Definition alwaysSucceeds : Oracle :=
  mkOracle
    (Ok "You are Bob, a Scrum Master.")
    (GenText (Some (mkDraftJson (Some [Task.mk "TASK-001" "do it" T_pending None]) None)))
    (fun _ _ =>
       GenText (Some (mkDevJson [FileChange.mk "src/a.ts" F_create (Some "x") None]
                                [] "feat: a")))
    (fun _ _ =>
       GenText (Some (mkReviewJson true None (Some 10%Z) (Some 0%Z) (Some 85%Z) []))).

(** The same service with the files as they stand: loading the scrum
    master's prompt throws. *)
Definition asShipped (o : Oracle) : Oracle :=
  mkOracle promptAsShipped (draftGen o) (devGen o) (qaGen o).

(** backlog = [A(deps: []), B(deps: [A])], two idle workers *)
Definition scenario : SwarmState := initialState [storyA; storyB] (Some (ofNat 2)).

(** The state in which the scenario circulates from the second cycle on. *)
Definition scenarioLoop : SwarmState :=
  {| activeStories := [];
     completedStories :=
       [Story.mk "A" "EPIC-001" "A" "" []
                 [Task.mk "TASK-001" "do it" T_pending None]
                 (Some "dev-1") S_completed (Some [])];
     agents :=
       [AgentStatus.mk "dev-1" "Dev Agent 1" (Some "A") A_idle (Some 100);
        AgentStatus.mk "dev-2" "Dev Agent 2" None A_idle None];
     maxAgents := 2;
     storyQueue := [storyB];
     codeChanges :=
       [CodeChange.mk "A" "dev-1" [FileChange.mk "src/a.ts" F_create (Some "x") None]
                      "feat: a" C_merged];
     testResults :=
       [TestResult.mk "A" (Some 10%Z) (Some 0%Z) (Some 85%Z) [] true];
     phase := P_complete;
     blockedStories := [] |}.

(** [B] is still in the backlog and in no other set. *)
Definition waitingB (state : SwarmState) : Prop :=
  In storyB (storyQueue state)
  /\ ~ In "B" (blockedStories state)
  /\ ~ In "B" (ids (activeStories state))
  /\ ~ In "B" (ids (completedStories state)).

(** What every configuration of the scenario looks like: not terminated,
    [B] still in the backlog, neither blocked nor completed. *)
Definition stuckOnB (c : Config) : Prop :=
  fst c <> END
  /\ In storyB (storyQueue (snd c))
  /\ ~ In "B" (blockedStories (snd c))
  /\ ~ In "B" (ids (completedStories (snd c))).

(** The inductive form of "no premature completion": it also covers the
    active stories, from which the completed ones are taken. *)
Definition depsDone (state : SwarmState) : Prop :=
  forall x ds d,
    In x (activeStories state ++ completedStories state) ->
    Story.dependencies x = Some ds ->
    In d ds ->
    In d (ids (completedStories state)).


(** The configuration of the scenario after [k] super-steps. *)
Definition afterSteps (k : nat) : Config :=
  match runGraph k alwaysSucceeds entryPoint scenario with
  | Some c => c
  | None => (entryPoint, scenario)
  end.

(** A backlog of one story without dependencies and one idle worker. *)
Definition soloScenario : SwarmState := initialState [storyA] (Some (ofNat 1)).

Definition soloAfter (k : nat) : Config :=
  match runGraph k alwaysSucceeds entryPoint soloScenario with
  | Some c => c
  | None => (entryPoint, soloScenario)
  end.

(** Two workers in the middle of a cycle: [dev-1] on [A], [dev-2] on [B]. *)
Definition executing : SwarmState :=
  {| activeStories :=
       [assignStory storyA "dev-1"; assignStory (backlogStory "B" []) "dev-2"];
     completedStories := [];
     agents :=
       [AgentStatus.mk "dev-1" "Dev Agent 1" (Some "A") A_working (Some 0);
        AgentStatus.mk "dev-2" "Dev Agent 2" (Some "B") A_working (Some 0)];
     maxAgents := 2;
     storyQueue := [];
     codeChanges := [];
     testResults := [];
     phase := P_execute;
     blockedStories := [] |}.

(** The generation for [dev-1] yields text that does not parse; every other
    generation succeeds. *)
Definition failsForDev1 (a : AgentStatus.t) (s : Story.t) : Gen DevJson :=
  if AgentStatus.id a =? "dev-1"
  then GenText None
  else devGen alwaysSucceeds a s.

(** The change [devPromise] builds from a parsed implementation. *)
Definition changeOf (a : AgentStatus.t) (s : Story.t) (j : DevJson) : CodeChange.t :=
  CodeChange.mk (Story.id s) (AgentStatus.id a) (dv_files j ++ dv_tests j)
                (dv_commitMessage j) C_pending.

(** A planning state with no artifact at all. *)
Definition emptyPlanning : PlanningState :=
  mkPlanningState None None None None [] [] PP_brief [] false None greenfield false.

(** An integrate phase with one reviewed change for [A], an untouched
    backlog story [U], and [B], blocked on [A], still in the backlog. *)
Definition storyU : Story.t := backlogStory "U" [].

Definition integrating : SwarmState :=
  {| activeStories := [assignStory storyA "dev-1"];
     completedStories := [];
     agents := [AgentStatus.mk "dev-1" "Dev Agent 1" (Some "A") A_idle (Some 100)];
     maxAgents := 1;
     storyQueue := [storyU; storyB];
     codeChanges := [CodeChange.mk "A" "dev-1" [] "feat: a" C_reviewed];
     testResults := [];
     phase := P_integrate;
     blockedStories := ["B"] |}.

(** [A] is active, and the backlog holds [B], which depends on [X], a story
    that exists nowhere. *)
Definition storyOnX : Story.t := backlogStory "B" ["X"].

Definition carryOver : SwarmState :=
  {| activeStories := [storyA];
     completedStories := [];
     agents := [AgentStatus.mk "dev-1" "Dev Agent 1" None A_idle None];
     maxAgents := 1;
     storyQueue := [storyOnX];
     codeChanges := [];
     testResults := [];
     phase := P_assign;
     blockedStories := [] |}.

(** A run entered with work in hand and an empty backlog: [A] is completed,
    [B], which depends on [A], is active, and the one worker is idle.  With
    an empty backlog the draft node returns before it asks for its prompt,
    so the run is the same whatever becomes of that call. *)
Definition resumed : SwarmState :=
  {| activeStories := [storyB];
     completedStories := [completeStory (assignStory storyA "dev-1")];
     agents := [AgentStatus.mk "dev-1" "Dev Agent 1" None A_idle None];
     maxAgents := 1;
     storyQueue := [];
     codeChanges := [];
     testResults := [];
     phase := P_assign;
     blockedStories := [] |}.

(** The configuration of that run after [k] super-steps, with the files as
    they stand and a generation service that always succeeds. *)
Definition resumedAfter (k : nat) : Config :=
  match runGraph k (asShipped alwaysSucceeds) entryPoint resumed with
  | Some c => c
  | None => (entryPoint, resumed)
  end.

(** A run entered with an empty backlog, [A] active, and the id [B] in the
    blocked set: blocked as the draft node blocks a story, which takes the
    story out of the backlog and keeps its id only. *)
Definition enteredBlocked : SwarmState :=
  {| activeStories := [storyA];
     completedStories := [];
     agents := [AgentStatus.mk "dev-1" "Dev Agent 1" None A_idle None];
     maxAgents := 1;
     storyQueue := [];
     codeChanges := [];
     testResults := [];
     phase := P_assign;
     blockedStories := ["B"] |}.

(** The state in which that run enters the integrate node: the change for
    [A] is reviewed, [B] is still blocked. *)
Definition mergingA : SwarmState :=
  {| activeStories := [assignStory storyA "dev-1"];
     completedStories := [];
     agents := [AgentStatus.mk "dev-1" "Dev Agent 1" (Some "A") A_idle (Some 100)];
     maxAgents := 1;
     storyQueue := [];
     codeChanges :=
       [CodeChange.mk "A" "dev-1" [FileChange.mk "src/a.ts" F_create (Some "x") None]
                      "feat: a" C_reviewed];
     testResults := [TestResult.mk "A" (Some 10%Z) (Some 0%Z) (Some 85%Z) [] true];
     phase := P_integrate;
     blockedStories := ["B"] |}.

(** Whether the story of blocked id [b] is found in the backlog with
    [allDepsCompleted] equal to [v]. *)
Definition foundWith (state : SwarmState) (b : string) (v : bool) : Prop :=
  exists s,
    find (fun q => Story.id q =? b) (storyQueue state) = Some s
    /\ allDepsCompleted (completedStories state ++ newlyCompleted state) s = v.


(** Two idle workers listed in the roster in the order [dev-2], [dev-1]. *)
Definition unsortedRoster : SwarmState :=
  {| activeStories := [storyA];
     completedStories := [];
     agents :=
       [AgentStatus.mk "dev-2" "Dev Agent 2" None A_idle None;
        AgentStatus.mk "dev-1" "Dev Agent 1" None A_idle None];
     maxAgents := 2;
     storyQueue := [];
     codeChanges := [];
     testResults := [];
     phase := P_assign;
     blockedStories := [] |}.

(** Nothing in flight: no active story, no code change, every worker idle. *)
Definition nothingInFlight (state : SwarmState) : Prop :=
  activeStories state = []
  /\ codeChanges state = []
  /\ forall a, In a (agents state) -> AgentStatus.status a = A_idle.

(** [integrating] once its change is already merged. *)
Definition alreadyMerged : SwarmState :=
  {| activeStories := [];
     completedStories := [completeStory (assignStory storyA "dev-1")];
     agents := agents integrating;
     maxAgents := 1;
     storyQueue := [storyU; storyB];
     codeChanges := [CodeChange.mk "A" "dev-1" [] "feat: a" C_merged];
     testResults := [];
     phase := P_integrate;
     blockedStories := ["B"] |}.

(** Two active stories that share the id [A]: one assigned, one not. *)
Definition sharedId : SwarmState :=
  {| activeStories := [assignStory storyA "dev-9"; storyA];
     completedStories := [];
     agents := [AgentStatus.mk "dev-1" "Dev Agent 1" None A_idle None];
     maxAgents := 1;
     storyQueue := [];
     codeChanges := [];
     testResults := [];
     phase := P_assign;
     blockedStories := [] |}.

(** ** Further properties of the swarm graph *)

(** What identifies a worker in the roster. *)
Definition rosterEntry (a : AgentStatus.t) : string * string :=
  (AgentStatus.id a, AgentStatus.name a).

(** The roster of [state'] lists the workers of [state], in the same order,
    and the worker limit is the same. *)
Definition sameRoster (state state' : SwarmState) : Prop :=
  map rosterEntry (agents state') = map rosterEntry (agents state)
  /\ maxAgents state' = maxAgents state.

(** What a code change carries besides its status. *)
Definition changeContent (c : CodeChange.t)
  : string * string * list FileChange.t * string :=
  (CodeChange.storyId c, CodeChange.agentId c, CodeChange.files c,
   CodeChange.commitMessage c).

(** Every change of [state] is still at its position in [state'], with the
    same content, and has not gone back to [pending]. *)
Definition changesKept (state state' : SwarmState) : Prop :=
  forall i c,
    nth_error (codeChanges state) i = Some c ->
    exists c',
      nth_error (codeChanges state') i = Some c'
      /\ changeContent c' = changeContent c
      /\ (CodeChange.status c <> C_pending -> CodeChange.status c' <> C_pending).

(** The completed stories of [state] open the completed list of [state']. *)
Definition completedKept (state state' : SwarmState) : Prop :=
  exists more, completedStories state' = completedStories state ++ more.

(** No worker is working, no change is pending, and a stored test result
    reports a failed test. *)
Definition reviewStalled (state : SwarmState) : Prop :=
  workingAgents state = []
  /\ pendingChanges state = []
  /\ existsb (fun r => gtZero (TestResult.failed r)) (testResults state) = true.

(** A generation service whose reviews approve and report one failed test. *)
Definition approvesWithFailure : Oracle :=
  mkOracle (smPrompt alwaysSucceeds) (draftGen alwaysSucceeds)
    (devGen alwaysSucceeds)
    (fun _ _ =>
       GenText (Some (mkReviewJson true None (Some 9%Z) (Some 1%Z) None ["flaky"]))).

(** The dependency list [smDraftNode] gives the drafted story. *)
Definition draftedDependencies (parsed : DraftJson) (nextStory : Story.t)
  : option (list string) :=
  match dj_hardDependencies parsed with
  | Some hd => Some hd
  | None => Story.dependencies nextStory
  end.

(** The run entered with [resumed], after its first review, when the
    review approves the change and reports a failed test. *)
Definition stalled : SwarmState :=
  match runGraph 4 (asShipped approvesWithFailure) entryPoint resumed with
  | Some c => snd c
  | None => resumed
  end.

(** ** planning/nodes.ts and planning/graph.ts: the other nodes, the graph *)

(** A [Partial<PlanningState>] with the two fields the analyst and the
    validation node write besides those of [PlanningDelta]. *)
Record PlanningUpdate := mkPlanningUpdate {
  pu_projectBrief : option Artifact.t;
  pu_userMessage : option string;
  pu_delta : PlanningDelta
}.

Definition noPlanningDelta : PlanningDelta :=
  mkPlanningDelta None None None None None None None None.

(** The update of a node that writes fields of [PlanningDelta] only. *)
Definition asUpdate (r : NodeResult PlanningDelta) : NodeResult PlanningUpdate :=
  match r with
  | Ok d => Ok (mkPlanningUpdate None None d)
  | Throw msg => Throw msg
  end.

(** [planningChannels]: every channel is [(x, y) => y ?? x]. *)
Definition applyPlanning (s : PlanningState) (u : PlanningUpdate) : PlanningState :=
  {| projectBrief :=
       match pu_projectBrief u with Some a => Some a | None => projectBrief s end;
     prd := match pd_prd (pu_delta u) with Some a => Some a | None => prd s end;
     uxSpec :=
       match pd_uxSpec (pu_delta u) with Some a => Some a | None => uxSpec s end;
     architecture :=
       match pd_architecture (pu_delta u) with
       | Some a => Some a
       | None => architecture s
       end;
     epics := coalesce (epics s) (pd_epics (pu_delta u));
     stories := coalesce (stories s) (pd_stories (pu_delta u));
     currentPhase := coalesce (currentPhase s) (pd_currentPhase (pu_delta u));
     validationIssues :=
       coalesce (validationIssues s) (pd_validationIssues (pu_delta u));
     needsUserInput := coalesce (needsUserInput s) (pd_needsUserInput (pu_delta u));
     userMessage :=
       match pu_userMessage u with Some m => Some m | None => userMessage s end;
     projectType := projectType s;
     includeUX := includeUX s |}.

Definition analystNode (reply : Reply) (now : nat) (state : PlanningState)
  : NodeResult PlanningUpdate :=
  match reply with
  | ReplyThrows => Throw generationError
  | ReplyText briefContent =>
      Ok (mkPlanningUpdate
            (Some (Artifact.mk Art_project_brief briefContent 1 "analyst" now))
            None
            (mkPlanningDelta None None None None None (Some PP_prd) None (Some false)))
  end.

(** The line feed of the template literals. *)
Definition LF : string := String (Ascii.ascii_of_nat 10) EmptyString.

Module Planning.

Section Graph.

(** [text.trim().toUpperCase().includes('VALIDATED')], the test of
    [poValidateNode]; upper-casing is the JavaScript runtime's, so the test
    is taken as it is, as a function of the reply. *)
Variable includesValidated : string -> bool.

Definition poValidateNode (reply : Reply) (state : PlanningState)
  : NodeResult PlanningUpdate :=
  match reply with
  | ReplyThrows => Throw generationError
  | ReplyText validationResult =>
      let isValid := includesValidated validationResult in
      let issues := if isValid then [] else [validationResult] in
      Ok (mkPlanningUpdate None
            (if isValid then None
             else Some ("Validation found issues that need to be addressed:"
                          ++ LF ++ LF ++ validationResult)%string)
            (mkPlanningDelta None None None None None
               (Some (if isValid then PP_sharding else PP_prd))
               (Some issues)
               (Some (negb isValid))))
  end.

Inductive Node := analyst | pm | ux | architect | po_validate | po_shard | END.

Definition shouldIncludeUX (state : PlanningState) : Node :=
  if includeUX state then ux else architect.

Definition checkValidation (state : PlanningState) : Node :=
  if negb (isEmpty (validationIssues state)) then pm else po_shard.

Definition checkComplete (state : PlanningState) : Node :=
  match currentPhase state with
  | PP_complete => END
  | _ => analyst
  end.

(** The edges of [createPlanningGraph]. *)
Definition nextNode (n : Node) (state : PlanningState) : Node :=
  match n with
  | analyst => pm
  | pm => shouldIncludeUX state
  | ux => architect
  | architect => po_validate
  | po_validate => checkValidation state
  | po_shard => checkComplete state
  | END => END
  end.

Definition entryPoint : Node := analyst.

(** What the outside contributes to one node execution: the reply of the
    generation service, the clock, and what [JSON.parse] makes of a text. *)
Record Oracle := mkOracle {
  reply : Reply;
  now : nat;
  parse : string -> string + list RawEpic.t
}.

Definition runNode (n : Node) (o : Oracle) (state : PlanningState)
  : NodeResult PlanningUpdate :=
  match n with
  | analyst => analystNode (reply o) (now o) state
  | pm => asUpdate (pmNode (reply o) (now o) state)
  | ux => asUpdate (uxNode (reply o) (now o) state)
  | architect => asUpdate (architectNode (reply o) (now o) state)
  | po_validate => poValidateNode (reply o) state
  | po_shard => asUpdate (poShardNode (reply o) (parse o) state)
  | END => Ok (mkPlanningUpdate None None noPlanningDelta)
  end.

Definition Config : Type := Node * PlanningState.

(** One super-step, with an oracle allowed by [Q]. *)
Inductive step (Q : Oracle -> Prop) : Config -> Config -> Prop :=
| step_run : forall n o state u,
    n <> END ->
    Q o ->
    runNode n o state = Ok u ->
    step Q (n, state) (nextNode n (applyPlanning state u), applyPlanning state u).

Inductive steps (Q : Oracle -> Prop) : Config -> Config -> Prop :=
| steps_refl : forall c, steps Q c c
| steps_snoc : forall c1 c2 c3, steps Q c1 c2 -> step Q c2 c3 -> steps Q c1 c3.

(** The configuration after [fuel] super-steps (or at [END], when that is
    reached before), [os k] answering the [k]-th of them: a prefix of the
    run, not the run as [graph.invoke] carries it out, which is [invoke]
    below; [None] when a node rejects. *)
Fixpoint runGraph (fuel : nat) (os : nat -> Oracle) (n : Node) (state : PlanningState)
  : option Config :=
  match fuel with
  | 0 => Some (n, state)
  | S k =>
      match n with
      | END => Some (END, state)
      | _ =>
          match runNode n (os 0) state with
          | Throw _ => None
          | Ok u =>
              runGraph k (fun i => os (S i))
                       (nextNode n (applyPlanning state u)) (applyPlanning state u)
          end
      end
  end.

(** The three ways [graph.invoke(state)] ends. *)
Inductive Invocation :=
| Returns : PlanningState -> Invocation
| NodeRejects : Invocation
| OutOfSteps : Invocation.

(** [graph.invoke(state)]: the state at [END]; the rejection of a node; or,
    when [END] is not reached within [recursionLimit] super-steps,
    LangGraph's GraphRecursionError. *)
Definition invoke (recursionLimit : nat) (os : nat -> Oracle) (state : PlanningState)
  : Invocation :=
  match runGraph recursionLimit os entryPoint state with
  | Some (END, final) => Returns final
  | Some _ => OutOfSteps
  | None => NodeRejects
  end.

End Graph.

(** [initialState] of [runPlanningWorkflow] (cli/src/commands/epic/create.ts),
    for the idea and [options.ux || false]. *)
Definition initialState (idea : string) (optUx : option bool) : PlanningState :=
  {| projectBrief := None;
     prd := None;
     uxSpec := None;
     architecture := None;
     epics := [];
     stories := [];
     currentPhase := PP_brief;
     validationIssues := [];
     needsUserInput := false;
     userMessage := Some idea;
     projectType := greenfield;
     includeUX := coalesce false optUx |}.

(** The artifacts the node about to run requires are there. *)
Definition ready (c : Config) : Prop :=
  match fst c with
  | analyst | END => True
  | pm => projectBrief (snd c) <> None
  | ux | architect => projectBrief (snd c) <> None /\ prd (snd c) <> None
  | po_validate | po_shard =>
      projectBrief (snd c) <> None /\ prd (snd c) <> None
      /\ architecture (snd c) <> None
  end.

(** The epics and stories of the state are those of one parsed reply. *)
Definition sharded (state : PlanningState) : Prop :=
  exists parsedEpics,
    epics state = map plannedEpic parsedEpics
    /\ stories state
       = flat_map (fun epic => map (shardedStory epic) (RawEpic.stories epic))
                  parsedEpics.

(** The reply, when it is a text, does not pass the validation test. *)
Definition failsValidation (includesValidated : string -> bool) (o : Oracle)
  : Prop :=
  forall t, reply o = ReplyText t -> includesValidated t = false.

End Planning.

(** What holds along a planning run: the artifacts the next node requires
    are there; the shard node is entered with a clean validation; [END] is
    entered with the result of a shard that parsed. *)
Definition planningShape (c : Planning.Config) : Prop :=
  Planning.ready c
  /\ (fst c = Planning.po_shard ->
      validationIssues (snd c) = [] /\ needsUserInput (snd c) = false
      /\ currentPhase (snd c) = PP_sharding)
  /\ (fst c = Planning.END ->
      currentPhase (snd c) = PP_complete
      /\ validationIssues (snd c) = [] /\ needsUserInput (snd c) = false
      /\ Planning.sharded (snd c)).


(** A planning service for examples: every reply is the text [VALIDATED],
    which the test below accepts, and every parse yields one epic with one
    story. *)
Definition saysValidated (t : string) : bool := t =? "VALIDATED".

Definition oneEpic : list RawEpic.t :=
  [RawEpic.mk "EPIC-001" "Login" "Users can log in"
     [RawStory.mk "EPIC-001-001" "Form" "As a user I want a form" ["renders"] None []]].

Definition planningOk (k : nat) : Planning.Oracle :=
  Planning.mkOracle (ReplyText "VALIDATED") k (fun _ => inr oneEpic).

(** A planning service whose every reply lists an issue. *)
Definition planningNo (k : nat) : Planning.Oracle :=
  Planning.mkOracle (ReplyText "- the PRD has no metrics") k (fun _ => inr oneEpic).

(** The planning of "a todo app" after [k] super-steps, when every reply
    lists an issue. *)
Definition planningNoAfter (k : nat) : Planning.Config :=
  match Planning.runGraph saysValidated k planningNo Planning.entryPoint
          (Planning.initialState "a todo app" None) with
  | Some c => c
  | None => (Planning.entryPoint, Planning.initialState "a todo app" None)
  end.

Definition planningAfter (k : nat) : Planning.Config :=
  match Planning.runGraph saysValidated k planningOk Planning.entryPoint
          (Planning.initialState "a todo app" None) with
  | Some c => c
  | None => (Planning.entryPoint, Planning.initialState "a todo app" None)
  end.

(** ** core/openaiContentGenerator.ts (the version with [partToText])

    JavaScript values are modelled by what the code inspects: whether a key
    is present on an object ([option] outside), and its value, which may be
    [undefined] ([option] inside).  A string is its sequence of UTF-16 code
    units, one character of the embedding per unit, so that [String.length]
    is the JavaScript [length]. *)

Module OpenAI.

(** A [PartUnion] inside a [parts] array or a system instruction: a string,
    or an object, of which only the [text] key is read. *)
Inductive PartUnion :=
| PStr : string -> PartUnion
| PObj : option (option string) -> PartUnion.

(** An object at the top level of [contents]: a [Part] or a [Content]. *)
Record Obj := mkObj {
  text : option (option string);
  role : option (option string);
  parts : option (list PartUnion)
}.

Inductive Item :=
| IStr : string -> Item
| IObj : Obj -> Item.

(** [ContentListUnion = Content | Content[] | PartUnion | PartUnion[]] *)
Inductive Contents :=
| One : Item -> Contents
| Arr : list Item -> Contents.

(** [s || ''] on an optional string. *)
Definition orEmpty (s : option string) : string :=
  match s with
  | Some t => t
  | None => ""
  end.

(** The value of the [text] key when it is truthy, [''] otherwise. *)
Definition textOf (t : option (option string)) : string :=
  match t with
  | Some (Some s) => s
  | _ => ""
  end.

Definition partToText (part : PartUnion) : string :=
  match part with
  | PStr s => s
  | PObj t => textOf t
  end.

(** [partToText(item as PartUnion)] *)
Definition itemToText (item : Item) : string :=
  match item with
  | IStr s => s
  | IObj o => textOf (text o)
  end.

(** [typeof x === 'string' || ('text' in x && !('role' in x))] *)
Definition isPart (item : Item) : bool :=
  match item with
  | IStr _ => true
  | IObj o =>
      match text o, role o with
      | Some _, None => true
      | _, _ => false
      end
  end.

Record Message := mkMessage {
  m_role : option string;
  m_content : string
}.

Definition nonEmpty (s : string) : bool := negb (s =? "").

(** [texts.filter((t) => t.length > 0).join('\n')] *)
Definition joinLines (texts : list string) : string :=
  String.concat LF (filter nonEmpty texts).

(** The message made of one [Content]: role [model] becomes [assistant],
    the texts of the parts are joined. *)
Definition contentMessage (item : Item) : Message :=
  match item with
  | IStr _ => mkMessage None ""
  | IObj o =>
      mkMessage
        (match role o with
         | Some (Some r) => if r =? "model" then Some "assistant" else Some r
         | _ => None
         end)
        (match parts o with
         | Some ps => joinLines (map partToText ps)
         | None => ""
         end)
  end.

Definition convertGeminiToOpenAI (contents : Contents) : list Message :=
  match contents with
  | One item =>
      if isPart item
      then [mkMessage (Some "user") (itemToText item)]
      else [contentMessage item]
  | Arr [] => []
  | Arr (first :: rest) =>
      if isPart first
      then [mkMessage (Some "user") (joinLines (map itemToText (first :: rest)))]
      else map contentMessage (first :: rest)
  end.

(** [config.systemInstruction] *)
Inductive SystemInstruction :=
| SIString : string -> SystemInstruction
| SIArray : list PartUnion -> SystemInstruction
| SIObject : Obj -> SystemInstruction.

(** The [systemMessage] computed by [generateContent] and
    [generateContentStream]; an empty string instruction is falsy. *)
Definition systemMessage (si : option SystemInstruction) : string :=
  match si with
  | None => ""
  | Some (SIString s) => s
  | Some (SIObject o) =>
      match text o with
      | Some t => orEmpty t
      | None =>
          match parts o with
          | Some ps => String.concat LF (map partToText ps)
          | None => ""
          end
      end
  | Some (SIArray ps) => String.concat LF (map partToText ps)
  end.

(** The [messages] sent to [chat.completions.create]. *)
Definition requestMessages (contents : Contents) (si : option SystemInstruction)
  : list Message :=
  if nonEmpty (systemMessage si)
  then mkMessage (Some "system") (systemMessage si) :: convertGeminiToOpenAI contents
  else convertGeminiToOpenAI contents.

(** The characters [countTokens] counts for one item of an array, or for a
    single item. *)
Definition itemChars (item : Item) : nat :=
  match item with
  | IStr s => String.length s
  | IObj o =>
      if isPart item
      then String.length (textOf (text o))
      else
        match parts o with
        | Some ps => list_sum (map (fun p => String.length (partToText p)) ps)
        | None => 0
        end
  end.

Definition totalChars (contents : Contents) : nat :=
  match contents with
  | One item => itemChars item
  | Arr items => fold_left (fun sum item => sum + itemChars item) items 0
  end.

(** [Math.ceil(totalChars / 4)] *)
Definition countTokens (contents : Contents) : nat :=
  (totalChars contents + 3) / 4.

(** The chat completion the endpoint returns, as far as it is read. *)
Record Choice := mkChoice {
  c_content : option string;
  c_finish_reason : option string;
  c_index : nat
}.

Record Usage := mkUsage {
  prompt_tokens : nat;
  completion_tokens : nat;
  total_tokens : nat
}.

Record ChatCompletion := mkChatCompletion {
  choices : list Choice;
  usage : option Usage
}.

Inductive FinishReason := STOP | MAX_TOKENS | SAFETY | OTHER.

(** What [mapping[reason] || FinishReason.OTHER] evaluates to: [mapping] is
    an object literal, so a reason that names a property inherited from
    [Object.prototype] finds that property instead of a finish reason. *)
Inductive FinishValue :=
| Reason : FinishReason -> FinishValue
| Inherited : string -> FinishValue.

Definition objectPrototypeKeys : list string :=
  ["constructor"; "__proto__"; "hasOwnProperty"; "isPrototypeOf";
   "propertyIsEnumerable"; "toLocaleString"; "toString"; "valueOf";
   "__defineGetter__"; "__defineSetter__"; "__lookupGetter__"; "__lookupSetter__"].

Definition convertFinishReason (reason : option string) : option FinishValue :=
  match reason with
  | None => None
  | Some r =>
      if r =? "" then None
      else if r =? "stop" then Some (Reason STOP)
      else if r =? "length" then Some (Reason MAX_TOKENS)
      else if r =? "content_filter" then Some (Reason SAFETY)
      else if r =? "tool_calls" then Some (Reason STOP)
      else if existsb (String.eqb r) objectPrototypeKeys then Some (Inherited r)
      else Some (Reason OTHER)
  end.

(** A [GenerateContentResponse], as far as the workflows read it. *)
Record Part := mkPart { p_text : option string }.

Record Content := mkContent {
  ct_role : option string;
  ct_parts : option (list Part)
}.

Record Candidate := mkCandidate {
  cd_content : option Content;
  cd_finishReason : option FinishValue;
  cd_index : option nat
}.

Record UsageMetadata := mkUsageMetadata {
  promptTokenCount : nat;
  candidatesTokenCount : nat;
  totalTokenCount : nat
}.

Record GenerateContentResponse := mkGenerateContentResponse {
  candidates : option (list Candidate);
  usageMetadata : option UsageMetadata
}.

Definition convertOpenAIToGemini (response : ChatCompletion) : GenerateContentResponse :=
  mkGenerateContentResponse
    (Some (map (fun choice =>
                  mkCandidate
                    (Some (mkContent (Some "model")
                             (Some [mkPart (Some (orEmpty (c_content choice)))])))
                    (convertFinishReason (c_finish_reason choice))
                    (Some (c_index choice)))
               (choices response)))
    (match usage response with
     | Some u =>
         Some (mkUsageMetadata (prompt_tokens u) (completion_tokens u) (total_tokens u))
     | None => None
     end).

(** [response.candidates?.[0]?.content?.parts?.map((part) => part.text).join('')
    || fallback], the text the workflow nodes take from a response
    ([fallback] is ['{}'] in the swarm nodes and [''] in [callAgent]). *)
Definition responseText (fallback : string) (response : GenerateContentResponse)
  : string :=
  let joined :=
    match candidates response with
    | Some (first :: _) =>
        match cd_content first with
        | Some content =>
            match ct_parts content with
            | Some ps => Some (String.concat "" (map (fun p => orEmpty (p_text p)) ps))
            | None => None
            end
        | None => None
        end
    | _ => None
    end in
  match joined with
  | Some t => if t =? "" then fallback else t
  | None => fallback
  end.

End OpenAI.

(** [contents: [{ role: 'user', parts: [{ text: userPrompt }] }]], the
    contents every workflow node sends. *)
Definition workflowContents (userPrompt : string) : OpenAI.Contents :=
  OpenAI.Arr
    [OpenAI.IObj
       (OpenAI.mkObj None (Some (Some "user"))
          (Some [OpenAI.PObj (Some (Some userPrompt))]))].

(** ** core/contentGenerator.ts *)

Module ContentGenerator.

Inductive AuthType :=
  LOGIN_WITH_GOOGLE | USE_GEMINI | USE_VERTEX_AI | CLOUD_SHELL | OPENAI_COMPATIBLE.

(** The environment variables the module reads. *)
Record Env := mkEnv {
  GEMINI_API_KEY : option string;
  GOOGLE_API_KEY : option string;
  GOOGLE_CLOUD_PROJECT : option string;
  GOOGLE_CLOUD_LOCATION : option string;
  OPENAI_BASE_URL : option string;
  OPENAI_MODEL : option string;
  OPENAI_API_KEY : option string
}.

(** [process.env[name] || undefined]: an empty value counts as unset. *)
Definition orUndefined (v : option string) : option string :=
  match v with
  | Some s => if s =? "" then None else Some s
  | None => None
  end.

Record ContentGeneratorConfig := mkConfig {
  apiKey : option string;
  vertexai : option bool;
  authType : option AuthType;
  proxy : option string;
  openaiBaseURL : option string;
  openaiModel : option string
}.

Definition isSome {A : Type} (o : option A) : bool :=
  match o with
  | Some _ => true
  | None => false
  end.

(** [proxy] is [config?.getProxy()]. *)
Definition createContentGeneratorConfig (proxy : option string) (env : Env)
    (authType : option AuthType) : ContentGeneratorConfig :=
  let geminiApiKey := orUndefined (GEMINI_API_KEY env) in
  let googleApiKey := orUndefined (GOOGLE_API_KEY env) in
  let googleCloudProject := orUndefined (GOOGLE_CLOUD_PROJECT env) in
  let googleCloudLocation := orUndefined (GOOGLE_CLOUD_LOCATION env) in
  let openaiBaseURL := orUndefined (OPENAI_BASE_URL env) in
  let openaiModel := orUndefined (OPENAI_MODEL env) in
  let openaiApiKey := orUndefined (OPENAI_API_KEY env) in
  let contentGeneratorConfig := mkConfig None None authType proxy None None in
  match authType with
  | Some LOGIN_WITH_GOOGLE | Some CLOUD_SHELL => contentGeneratorConfig
  | Some USE_GEMINI =>
      if isSome geminiApiKey
      then mkConfig geminiApiKey (Some false) authType proxy None None
      else contentGeneratorConfig
  | Some USE_VERTEX_AI =>
      if isSome googleApiKey
         || (isSome googleCloudProject && isSome googleCloudLocation)
      then mkConfig googleApiKey (Some true) authType proxy None None
      else contentGeneratorConfig
  | Some OPENAI_COMPATIBLE =>
      mkConfig openaiApiKey None authType proxy openaiBaseURL openaiModel
  | None => contentGeneratorConfig
  end.

(** What [createContentGenerator] reads besides the configuration. *)
Record Runtime := mkRuntime {
  userAgent : string;
  usageStatisticsEnabled : bool;
  installationId : string
}.

(** The generator that is built, by its constructor arguments. *)
Inductive Generator :=
| CodeAssist : list (string * string) -> AuthType -> Generator
| GoogleGenAI : option string -> option bool -> list (string * string) -> Generator
| OpenAICompatible : string -> string -> string -> Generator.

(** [new OpenAICompatibleContentGenerator({ baseURL, apiKey, model })]: the
    client gets [apiKey || 'not-needed']. *)
Definition newOpenAI (baseURL : string) (key : option string) (model : string)
  : Generator :=
  OpenAICompatible baseURL
    (match orUndefined key with
     | Some k => k
     | None => "not-needed"
     end)
    model.

(** The generator wrapped by [LoggingContentGenerator], or the error thrown. *)
Definition createContentGenerator (rt : Runtime) (config : ContentGeneratorConfig)
  : NodeResult Generator :=
  let baseHeaders := [("User-Agent", userAgent rt)] in
  match authType config with
  | Some LOGIN_WITH_GOOGLE => Ok (CodeAssist baseHeaders LOGIN_WITH_GOOGLE)
  | Some CLOUD_SHELL => Ok (CodeAssist baseHeaders CLOUD_SHELL)
  | Some USE_GEMINI | Some USE_VERTEX_AI =>
      let headers :=
        if usageStatisticsEnabled rt
        then baseHeaders ++ [("x-gemini-api-privileged-user-id", installationId rt)]
        else baseHeaders in
      Ok (GoogleGenAI (orUndefined (apiKey config)) (vertexai config) headers)
  | Some OPENAI_COMPATIBLE =>
      match orUndefined (openaiBaseURL config), orUndefined (openaiModel config) with
      | Some baseURL, Some model => Ok (newOpenAI baseURL (apiKey config) model)
      | _, _ =>
          Throw "OpenAI-compatible mode requires openaiBaseURL and openaiModel in config"
      end
  | None => Throw "Error creating contentGenerator: Unsupported authType: undefined"
  end.

(** The generator of [runPlanningWorkflow] in cli/src/commands/epic/create.ts:
    the three [OPENAI_*] variables with their defaults. *)
Definition planningGenerator (rt : Runtime) (env : Env) : NodeResult Generator :=
  createContentGenerator rt
    (mkConfig (OPENAI_API_KEY env) None (Some OPENAI_COMPATIBLE) None
       (Some (match orUndefined (OPENAI_BASE_URL env) with
              | Some u => u
              | None => "http://localhost:8080/v1"
              end))
       (Some (match orUndefined (OPENAI_MODEL env) with
              | Some m => m
              | None => "llama-3.2-3b"
              end))).

End ContentGenerator.

(** [value || fallback] on an environment variable. *)
Definition orDefault (v : option string) (fallback : string) : string :=
  match ContentGenerator.orUndefined v with
  | Some s => s
  | None => fallback
  end.

(** The number of stories that have left the backlog for another set. *)
Definition drafted (state : SwarmState) : nat :=
  length (activeStories state) + length (completedStories state)
  + length (blockedStories state).
(** * Verification *)

Unset Implicit Arguments.

(** ** The graph driver *)

Lemma Node_eq_END : forall n : Node, n = END \/ n <> END.
Proof. intros []; (now left) || (right; discriminate). Qed.

Lemma runGraph_END : forall fuel o state,
  runGraph fuel o END state = Some (END, state).
Proof. intros [|k] o state; reflexivity. Qed.

Lemma runGraph_S : forall k o n state,
  n <> END ->
  runGraph (S k) o n state =
  match runNode n o state with
  | Throw _ => None
  | Ok d => runGraph k o (nextNode n (applyDelta state d)) (applyDelta state d)
  end.
Proof. intros k o n state Hn. destruct n; try reflexivity. congruence. Qed.

Lemma runGraph_add : forall a b o n state,
  runGraph (a + b) o n state =
  match runGraph a o n state with
  | Some c => runGraph b o (fst c) (snd c)
  | None => None
  end.
Proof.
  induction a as [|a IH]; intros b o n state.
  - reflexivity.
  - destruct (Node_eq_END n) as [-> | Hn].
    + rewrite !runGraph_END. reflexivity.
    + change (S a + b) with (S (a + b)). rewrite !runGraph_S by assumption.
      destruct (runNode n o state) as [d|msg]; [apply IH | reflexivity].
Qed.

Lemma steps_trans : forall c1 c2 c3, steps c1 c2 -> steps c2 c3 -> steps c1 c3.
Proof.
  intros c1 c2 c3 H12 H23. revert H12.
  induction H23 as [c | a b c Hab IH Hbc]; intros H12.
  - assumption.
  - eapply steps_snoc; [apply IH; assumption | exact Hbc].
Qed.

Lemma steps_one : forall c1 c2, step c1 c2 -> steps c1 c2.
Proof. intros c1 c2 H. eapply steps_snoc; [apply steps_refl | exact H]. Qed.

(** Whatever the driver computes is reachable in the step relation. *)
Lemma runGraph_steps : forall fuel o n state c,
  runGraph fuel o n state = Some c -> steps (n, state) c.
Proof.
  induction fuel as [|k IH]; intros o n state c H.
  - injection H as <-. apply steps_refl.
  - destruct (Node_eq_END n) as [-> | Hn].
    + rewrite runGraph_END in H. injection H as <-. apply steps_refl.
    + rewrite runGraph_S in H by assumption.
      destruct (runNode n o state) as [d|msg] eqn:E; [|discriminate].
      eapply steps_trans; [|eapply IH; exact H].
      apply steps_one. apply (step_run o); assumption.
Qed.

Lemma no_step_from_END : forall state c, ~ step (END, state) c.
Proof. intros state c H. inversion H; subst. congruence. Qed.

(** ** C1: the two-story scenario *)

Lemma scenario_cycle_one :
  runGraph 5 alwaysSucceeds entryPoint scenario
  = Some (assign,
          {| activeStories := [];
             completedStories := completedStories scenarioLoop;
             agents := agents scenarioLoop;
             maxAgents := 2;
             storyQueue := [storyB];
             codeChanges := codeChanges scenarioLoop;
             testResults := testResults scenarioLoop;
             phase := P_assign;
             blockedStories := [] |}).
Proof. vm_compute. reflexivity. Qed.

Lemma scenario_enters_loop :
  runGraph 9 alwaysSucceeds entryPoint scenario = Some (assign, scenarioLoop).
Proof. vm_compute. reflexivity. Qed.

Lemma scenario_loop_period :
  runGraph 4 alwaysSucceeds assign scenarioLoop = Some (assign, scenarioLoop).
Proof. vm_compute. reflexivity. Qed.

Ltac stuck_by_evaluation :=
  eexists; split; [vm_compute; reflexivity |];
  repeat split; simpl;
  try discriminate; try (left; reflexivity);
  intuition discriminate.

Lemma scenario_loop_stuck : forall fuel,
  exists c, runGraph fuel alwaysSucceeds assign scenarioLoop = Some c /\ stuckOnB c.
Proof.
  intros fuel. induction fuel as [fuel IH] using lt_wf_ind.
  destruct fuel as [|[|[|[|m]]]]; try stuck_by_evaluation.
  change (S (S (S (S m)))) with (4 + m).
  rewrite runGraph_add, scenario_loop_period. simpl fst; simpl snd.
  apply IH. lia.
Qed.

(** C1 (the code departs from the scenario).  With backlog [A; B(deps A)],
    two idle workers and a generation service that always succeeds, the
    first cycle completes [A] but never puts [B] in the blocked set: [B]
    stays in the backlog, and whatever the number of super-steps the run
    has not reached [END], [B] is not blocked and [B] is not completed. *)
Theorem scenario_B_never_completed :
  (exists s1, runGraph 5 alwaysSucceeds entryPoint scenario = Some (assign, s1)
     /\ ids (completedStories s1) = ["A"]
     /\ blockedStories s1 = []
     /\ storyQueue s1 = [storyB])
  /\ forall fuel,
       exists c, runGraph fuel alwaysSucceeds entryPoint scenario = Some c
                 /\ stuckOnB c.
Proof.
  split.
  - eexists. split; [apply scenario_cycle_one |]. repeat split.
  - intros fuel.
    destruct (Nat.lt_ge_cases fuel 9) as [Hlt | Hge].
    + do 9 (destruct fuel as [|fuel]; [stuck_by_evaluation |]). lia.
    + replace fuel with (9 + (fuel - 9)) by lia.
      rewrite runGraph_add, scenario_enters_loop. simpl fst; simpl snd.
      apply scenario_loop_stuck.
Qed.

(** With the files as they stand no run gets past the draft of a non-empty
    backlog: the call for the prompt throws, the draft node rejects, and
    [graph.invoke] rejects at its first super-step, whatever the generation
    service and the recursion limit. *)
Lemma nonempty_backlog_rejects_as_shipped : forall o state recursionLimit,
  storyQueue state <> [] ->
  runNode sm_draft (asShipped o) state = Throw Personas.requireError
  /\ invoke (S recursionLimit) (asShipped o) state = NodeRejects.
Proof.
  intros o state limit Hq.
  assert (runNode sm_draft (asShipped o) state = Throw Personas.requireError) as H.
  { simpl. unfold smDraftNode. destruct (storyQueue state); [congruence | reflexivity]. }
  split; [exact H |].
  unfold invoke, entryPoint. rewrite runGraph_S by discriminate. now rewrite H.
Qed.

Lemma scenario_rejects_as_shipped :
  invoke defaultRecursionLimit (asShipped alwaysSucceeds) scenario = NodeRejects.
Proof.
  apply (nonempty_backlog_rejects_as_shipped alwaysSucceeds scenario 24).
  simpl. discriminate.
Qed.

(** ** Invariants of a run *)

Section Invariants.

Variable I : Config -> Prop.
Variable P : SwarmState -> Prop.

Lemma steps_invariant : forall c0,
  I c0 ->
  (forall c c', I c -> step c c' -> I c') ->
  forall c, steps c0 c -> I c.
Proof.
  intros c0 H0 Hstep c Hc. induction Hc as [c | a b c Hab IH Hbc].
  - assumption.
  - eapply Hstep; [apply IH; assumption | exact Hbc].
Qed.

Hypothesis P_node : forall n o state d,
  runNode n o state = Ok d -> P state -> P (applyDelta state d).

(** An invariant of the state alone, kept by every node, holds in a run. *)
Lemma state_invariant : forall n0 s0 c, P s0 -> steps (n0, s0) c -> P (snd c).
Proof.
  intros n0 s0 c H0 Hc. revert H0. remember (n0, s0) as c0 eqn:E.
  induction Hc as [c | a b c Hab IH Hbc]; intros H0.
  - now subst.
  - specialize (IH E H0). inversion Hbc; subst. simpl in *.
    eapply P_node; eauto.
Qed.

End Invariants.

Lemma In_ids : forall (l : list Story.t) x, In x l -> In (Story.id x) (ids l).
Proof. intros l x H. unfold ids. now apply in_map. Qed.

Lemma ids_app : forall l1 l2, ids (l1 ++ l2) = ids l1 ++ ids l2.
Proof. intros. unfold ids. apply map_app. Qed.

Lemma existsb_id_In : forall (done : list Story.t) d,
  existsb (fun s => Story.id s =? d) done = true <-> In d (ids done).
Proof.
  intros done d. rewrite existsb_exists. unfold ids. rewrite in_map_iff.
  split; intros (s & H1 & H2).
  - exists s. split; [now apply String.eqb_eq | assumption].
  - exists s. split; [assumption | now apply String.eqb_eq].
Qed.

Lemma forallb_neq_In : forall (done : list Story.t) d,
  forallb (fun s => negb (Story.id s =? d)) done = false <-> In d (ids done).
Proof.
  intros done d. induction done as [|s rest IH]; simpl.
  - split; [discriminate | contradiction].
  - destruct (Story.id s =? d) eqn:E; simpl.
    + split; [intros _; left; now apply String.eqb_eq | reflexivity].
    + rewrite IH. split; [now right | intros [H | H]; [|assumption]].
      apply String.eqb_neq in E. contradiction.
Qed.

(** A story that [smDraftNode] lets through has all its dependencies done. *)
Lemma isBlocked_false : forall completed ds,
  isBlocked completed (Some ds) = false ->
  forall d, In d ds -> In d (ids completed).
Proof.
  intros completed ds H d Hd. simpl in H.
  apply forallb_neq_In.
  destruct (forallb _ completed) eqn:E; [|reflexivity].
  assert (existsb
            (fun depId => forallb (fun s => negb (Story.id s =? depId)) completed)
            ds = true) as Hex
    by (apply existsb_exists; exists d; split; assumption).
  congruence.
Qed.

Lemma includes_In : forall l x, includes l x = true <-> In x l.
Proof.
  intros l x. unfold includes. rewrite existsb_exists. split.
  - intros (y & Hy & E). apply String.eqb_eq in E. now subst.
  - intros H. exists x. split; [assumption | apply String.eqb_refl].
Qed.

Lemma updateStory_id : forall asg s, Story.id (updateStory asg s) = Story.id s.
Proof. intros asg s. unfold updateStory. destruct (find _ asg); reflexivity. Qed.

Lemma updateStory_dependencies : forall asg s,
  Story.dependencies (updateStory asg s) = Story.dependencies s.
Proof. intros asg s. unfold updateStory. destruct (find _ asg); reflexivity. Qed.

Lemma smDraftNode_depsDone : forall prompt gen state d,
  smDraftNode prompt gen state = Ok d -> depsDone state ->
  depsDone (applyDelta state d).
Proof.
  intros prompt gen state d H Inv. unfold smDraftNode in H.
  destruct (storyQueue state) as [|nextStory rest].
  { injection H as <-. exact Inv. }
  destruct prompt as [systemPrompt|e]; [| discriminate].
  destruct gen as [|[parsed|]]; [discriminate | | injection H as <-; exact Inv].
  match type of H with (if ?b then _ else _) = _ => destruct b eqn:Hb end;
    injection H as <-.
  - exact Inv.
  - intros x ds dep Hx Hds Hdep. simpl in *.
    rewrite <- app_assoc in Hx. apply in_app_or in Hx as [Hx | Hx].
    + eapply Inv; eauto. apply in_or_app. now left.
    + simpl in Hx. destruct Hx as [<- | Hx].
      * simpl in Hds, Hb. rewrite Hds in Hb.
        eapply isBlocked_false; eauto.
      * eapply Inv; eauto. apply in_or_app. now right.
Qed.

Lemma assignNode_depsDone : forall state d,
  assignNode state = Ok d -> depsDone state -> depsDone (applyDelta state d).
Proof.
  intros state d H Inv. unfold assignNode in H.
  destruct (isEmpty _ || isEmpty _); injection H as <-; [exact Inv |].
  intros x ds dep Hx Hds Hdep. simpl in *.
  apply in_app_or in Hx as [Hx | Hx].
  - apply in_map_iff in Hx as (y & <- & Hy).
    rewrite updateStory_dependencies in Hds.
    eapply Inv; eauto. apply in_or_app. now left.
  - eapply Inv; eauto. apply in_or_app. now right.
Qed.

Lemma devSwarmNode_stories : forall gen state d,
  devSwarmNode gen state = Ok d ->
  d_activeStories d = None /\ d_completedStories d = None
  /\ d_storyQueue d = None /\ d_blockedStories d = None.
Proof.
  intros gen state d H. unfold devSwarmNode in H.
  destruct (isEmpty _); [injection H as <-; now repeat split|].
  destruct (awaitAll _); [injection H as <-; now repeat split | discriminate].
Qed.

Lemma qaReviewNode_stories : forall gen state d,
  qaReviewNode gen state = Ok d ->
  d_activeStories d = None /\ d_completedStories d = None
  /\ d_storyQueue d = None /\ d_blockedStories d = None /\ d_agents d = None.
Proof.
  intros gen state d H. unfold qaReviewNode in H.
  destruct (isEmpty _); [injection H as <-; now repeat split|].
  destruct (awaitAll _); [injection H as <-; now repeat split | discriminate].
Qed.

Lemma integrateNode_depsDone : forall state d,
  integrateNode state = Ok d -> depsDone state -> depsDone (applyDelta state d).
Proof.
  intros state d H Inv. unfold integrateNode in H.
  destruct (isEmpty _); injection H as <-; [exact Inv |].
  intros x ds dep Hx Hds Hdep. simpl in *.
  rewrite ids_app. apply in_or_app. left.
  apply in_app_or in Hx as [Hx | Hx].
  - unfold remainingActive in Hx. apply filter_In in Hx as [Hx _].
    eapply Inv; eauto. apply in_or_app. now left.
  - apply in_app_or in Hx as [Hx | Hx].
    + eapply Inv; eauto. apply in_or_app. now right.
    + unfold newlyCompleted in Hx. apply in_map_iff in Hx as (y & <- & Hy).
      apply filter_In in Hy as [Hy _]. simpl in Hds.
      eapply Inv; eauto. apply in_or_app. now left.
Qed.

Lemma runNode_depsDone : forall n o state d,
  runNode n o state = Ok d -> depsDone state -> depsDone (applyDelta state d).
Proof.
  intros n o state d H Inv. destruct n; simpl in H.
  - eapply smDraftNode_depsDone; eauto.
  - eapply assignNode_depsDone; eauto.
  - apply devSwarmNode_stories in H as (Ha & Hc & _).
    unfold depsDone, applyDelta. simpl. rewrite Ha, Hc. exact Inv.
  - apply qaReviewNode_stories in H as (Ha & Hc & _).
    unfold depsDone, applyDelta. simpl. rewrite Ha, Hc. exact Inv.
  - eapply integrateNode_depsDone; eauto.
  - injection H as <-. exact Inv.
Qed.

Lemma initialState_fresh : forall stories optMaxAgents,
  fresh (initialState stories optMaxAgents).
Proof.
  intros stories optMaxAgents. repeat split; try reflexivity;
    simpl in H; unfold makeAgents in H; apply in_map_iff in H as (i & <- & _);
    reflexivity.
Qed.

Lemma fresh_depsDone : forall init, fresh init -> depsDone init.
Proof.
  intros init (Ha & Hc & _) x ds d Hx. rewrite Ha, Hc in Hx. contradiction.
Qed.

Lemma depsDone_preserved : forall n0 s0 c,
  depsDone s0 -> steps (n0, s0) c -> depsDone (snd c).
Proof.
  intros n0 s0 c H0 Hrun.
  eapply (state_invariant depsDone); [exact runNode_depsDone | exact H0 | exact Hrun].
Qed.

(** C2.  A run is entered with a state in which the dependency ids of
    every active and of every completed story are ids of completed stories;
    a fresh state, with no active and no completed story, is one.  In every
    configuration of such a run, every story of the completed set has all
    its dependency ids among the ids of the completed set. *)
Theorem no_premature_completion :
  (forall init, fresh init -> depsDone init)
  /\ forall init c,
       depsDone init ->
       steps (entryPoint, init) c ->
       noPrematureCompletion (snd c).
Proof.
  split; [exact fresh_depsDone |].
  intros init c Hinit Hrun.
  assert (depsDone (snd c)) as Inv
    by (eapply depsDone_preserved; [exact Hinit | exact Hrun]).
  intros x ds d Hx Hds Hd. eapply Inv; eauto. apply in_or_app. now right.
Qed.

Lemma scenario_run : SwarmRun (assign, scenarioLoop).
Proof.
  exists scenario. split; [apply initialState_fresh |].
  apply (runGraph_steps 9 alwaysSucceeds). exact scenario_enters_loop.
Qed.

Lemma resumed_depsDone : depsDone resumed.
Proof.
  intros x ds d Hx Hds Hd. simpl in Hx.
  destruct Hx as [<- | [<- | []]]; simpl in Hds; injection Hds as <-.
  - destruct Hd as [<- | []]. simpl. now left.
  - destruct Hd.
Qed.

Lemma resumedAfter_run : forall k, steps (entryPoint, resumed) (resumedAfter k).
Proof.
  intros k. unfold resumedAfter.
  destruct (runGraph k (asShipped alwaysSucceeds) entryPoint resumed) as [c|] eqn:E.
  - eapply runGraph_steps; exact E.
  - apply steps_refl.
Qed.

(** The run entered with [resumed] ends after five super-steps, [B]
    completed after [A], on which it depends. *)
Lemma resumed_completes_B :
  resumedAfter 5 = (END, snd (resumedAfter 5))
  /\ map (fun s => (Story.id s, Story.dependencies s))
         (completedStories (snd (resumedAfter 5)))
     = [("A", Some []); ("B", Some ["A"])].
Proof. split; vm_compute; reflexivity. Qed.

Lemma no_premature_completion_witness :
  depsDone resumed
  /\ steps (entryPoint, resumed) (resumedAfter 5)
  /\ map (fun s => (Story.id s, Story.dependencies s))
         (completedStories (snd (resumedAfter 5)))
     = [("A", Some []); ("B", Some ["A"])]
  /\ noPrematureCompletion (snd (resumedAfter 5)).
Proof.
  split; [exact resumed_depsDone |].
  split; [apply resumedAfter_run |].
  split; [exact (proj2 resumed_completes_B) |].
  exact (proj2 no_premature_completion resumed (resumedAfter 5)
           resumed_depsDone (resumedAfter_run 5)).
Defined.

(** ** C6: worker status *)

Lemma updateAgent_cases : forall asg a,
  updateAgent asg a = a \/ exists sid, updateAgent asg a = assignAgent a sid.
Proof.
  intros asg a. unfold updateAgent. destruct (find _ asg) as [x|].
  - right. now exists (Assignment.storyId x).
  - now left.
Qed.








(** After the assign node of the run entered with [resumed], worker
    [dev-1] is working on [B]; after the execute node it is idle and still
    records [B]. *)
Lemma resumed_worker :
  agents (snd (resumedAfter 2))
  = [AgentStatus.mk "dev-1" "Dev Agent 1" (Some "B") A_working (Some 0)]
  /\ resumedAfter 3
     = (qa_review,
        applyDelta (snd (resumedAfter 2))
          (mkSwarmDelta None None
             (Some [AgentStatus.mk "dev-1" "Dev Agent 1" (Some "B") A_idle (Some 100)])
             None None
             (Some (codeChanges (snd (resumedAfter 3)))) None (Some P_review) None)).
Proof. split; vm_compute; reflexivity. Qed.



(** ** C9: termination *)

Lemma isEmpty_true : forall (A : Type) (l : list A), isEmpty l = true <-> l = [].
Proof. intros A [|x l]; simpl; split; intros H; congruence. Qed.

Lemma hasMoreWork_END : forall state,
  hasMoreWork state = END <-> storyQueue state = [] /\ activeStories state = [].
Proof.
  intros state. unfold hasMoreWork.
  rewrite <- !isEmpty_true.
  destruct (isEmpty (storyQueue state)), (isEmpty (activeStories state)); simpl;
    split; intros H; try discriminate; try reflexivity; try (now split);
    destruct H; discriminate.
Qed.

Lemma hasMoreWork_cases : forall state,
  hasMoreWork state = END \/ hasMoreWork state = assign.
Proof. intros state. unfold hasMoreWork. destruct (_ || _); auto. Qed.

Lemma nextNode_END : forall n state,
  n <> END -> nextNode n state = END ->
  n = integrate /\ storyQueue state = [] /\ activeStories state = [].
Proof.
  intros n state Hn H. destruct n; simpl in H; try discriminate; try congruence.
  - unfold needsMoreDev in H. destruct (existsb _ _); discriminate.
  - split; [reflexivity | now apply hasMoreWork_END].
Qed.

(** C9.  A run that started at the entry point is at [END] only with an
    empty backlog and an empty active set; after the integrate node the
    graph goes to [assign] when the backlog or the active set of the merged
    state is non-empty, and to [END] otherwise; and when the integrate node
    merged a reviewed change, the phase tag it writes agrees with that edge. *)
Theorem terminates_only_when_drained :
  (forall init state,
     steps (entryPoint, init) (END, state) ->
     storyQueue state = [] /\ activeStories state = [])
  /\ (forall state d,
        integrateNode state = Ok d ->
        (storyQueue (applyDelta state d) <> [] \/ activeStories (applyDelta state d) <> []
         -> nextNode integrate (applyDelta state d) = assign)
        /\ (storyQueue (applyDelta state d) = [] /\ activeStories (applyDelta state d) = []
            -> nextNode integrate (applyDelta state d) = END))
  /\ (forall state,
        reviewedChanges state <> [] ->
        (nextNode integrate (after (integrateNode state) state) = assign
         -> phase (after (integrateNode state) state) = P_assign)
        /\ (nextNode integrate (after (integrateNode state) state) = END
            -> phase (after (integrateNode state) state) = P_complete)).
Proof.
  split; [| split].
  - intros init state Hrun.
    assert (forall c, steps (entryPoint, init) c ->
                      fst c = END ->
                      storyQueue (snd c) = [] /\ activeStories (snd c) = []) as Hinv.
    { apply (steps_invariant
               (fun c => fst c = END ->
                         storyQueue (snd c) = [] /\ activeStories (snd c) = [])).
      - simpl. discriminate.
      - intros c c' _ Hstep. inversion Hstep; subst. simpl. intros Hend.
        now apply nextNode_END in Hend. }
    exact (Hinv (END, state) Hrun eq_refl).
  - intros state d _. simpl. split.
    + intros Hne. destruct (hasMoreWork_cases (applyDelta state d)) as [H | H];
        [| exact H].
      apply hasMoreWork_END in H. destruct H as [Hq Ha]. destruct Hne; contradiction.
    + intros H. now apply hasMoreWork_END.
  - intros state Hne. unfold integrateNode.
    destruct (reviewedChanges state) as [|c cs]; [congruence |].
    simpl. unfold hasMoreWork. simpl.
    destruct (negb (isEmpty (updatedQueue state))
              || negb (isEmpty (remainingActive state)));
      split; intros H; try reflexivity; discriminate.
Qed.

Lemma solo_terminates : soloAfter 5 =
  (END, snd (soloAfter 5)) /\ integrateNode (snd (soloAfter 4)) =
  Ok (mkSwarmDelta (Some []) (Some (completedStories (snd (soloAfter 5)))) None None
        (Some []) (Some (codeChanges (snd (soloAfter 5)))) None (Some P_complete)
        (Some [])).
Proof. split; vm_compute; reflexivity. Qed.

Lemma terminates_only_when_drained_witness :
  (storyQueue (snd (soloAfter 5)) = [] /\ activeStories (snd (soloAfter 5)) = [])
  /\ nextNode integrate (snd (soloAfter 5)) = END.
Proof.
  destruct terminates_only_when_drained as (Hend & Hedge & _).
  assert (steps (entryPoint, soloScenario) (END, snd (soloAfter 5))) as Hrun.
  { apply (runGraph_steps 5 alwaysSucceeds). vm_compute. reflexivity. }
  split.
  - exact (Hend soloScenario (snd (soloAfter 5)) Hrun).
  - destruct (Hedge (snd (soloAfter 4)) _ (proj2 solo_terminates)) as [_ H].
    apply H. split; vm_compute; reflexivity.
Defined.

(** ** C8: a draft that fails *)


(** The backlog is kept as well when the prompt is delivered and the
    generated draft does not parse. *)
Lemma unparsed_draft_keeps_backlog :
  ~ droppedForCycle scenario
      (after (smDraftNode (smPrompt alwaysSucceeds) (GenText None) scenario) scenario)
      storyA.
Proof. intros (_ & _ & _ & Hlen). vm_compute in Hlen. discriminate. Qed.



(** ** C7: a generation that fails during execution *)

Lemma awaitAll_None : forall (A B : Type) (f : A -> Settled B) l,
  awaitAll (map f l) = None <-> exists a, In a l /\ f a = Rejected.
Proof.
  intros A B f l. induction l as [|x l IH]; simpl.
  - split; [discriminate | intros (a & [] & _)].
  - destruct (f x) as [| |v] eqn:E.
    + split; [intros _; exists x; auto | reflexivity].
    + rewrite IH. split; intros (a & Ha & Hr).
      * exists a. auto.
      * destruct Ha as [<- | Ha]; [congruence | exists a; auto].
    + destruct (awaitAll (map f l)) as [vs|] eqn:Er.
      * split; [discriminate |]. intros (a & [<- | Ha] & Hr); [congruence |].
        exfalso. assert (Some vs = None) by (apply IH; exists a; auto).
        discriminate.
      * split; [| reflexivity]. intros _.
        destruct (proj1 IH eq_refl) as (a & Ha & Hr). exists a. auto.
Qed.

Lemma awaitAll_Some : forall (A B : Type) (f : A -> Settled B) l vs,
  awaitAll (map f l) = Some vs ->
  forall v, In v vs <-> exists a, In a l /\ f a = Value v.
Proof.
  intros A B f l. induction l as [|x l IH]; simpl; intros vs H v.
  - injection H as <-. split; [intros [] | intros (a & [] & _)].
  - destruct (f x) as [| |w] eqn:E; [discriminate | |].
    + rewrite (IH vs H v). split; intros (a & Ha & Hv).
      * exists a. auto.
      * destruct Ha as [<- | Ha]; [congruence | exists a; auto].
    + destruct (awaitAll (map f l)) as [ws|] eqn:Er; [|discriminate].
      injection H as <-. simpl. rewrite (IH ws eq_refl v). split.
      * intros [<- | (a & Ha & Hv)]; [exists x; auto | exists a; auto].
      * intros (a & [<- | Ha] & Hv); [left; congruence | right; exists a; auto].
Qed.

Lemma isEmpty_false_In : forall (A : Type) (l : list A) x,
  In x l -> isEmpty l = false.
Proof. intros A [|y l] x H; [contradiction | reflexivity]. Qed.

Lemma NoDup_map_In_eq : forall (A B : Type) (f : A -> B) l x y,
  NoDup (map f l) -> In x l -> In y l -> f x = f y -> x = y.
Proof.
  intros A B f l x y Hnd. induction l as [|z l IH]; simpl; intros Hx Hy E.
  - contradiction.
  - inversion Hnd as [|? ? Hnot Hnd']; subst.
    destruct Hx as [<- | Hx], Hy as [<- | Hy].
    + reflexivity.
    + exfalso. apply Hnot. rewrite E. now apply in_map.
    + exfalso. apply Hnot. rewrite <- E. now apply in_map.
    + now apply IH.
Qed.

(** C7 as stated fails: with two working workers, when the generation for
    [dev-1] does not parse, [dev-1] is not released and story [A] is not
    unassigned. *)
Lemma failed_worker_not_released :
  ~ releasedForRetry (after (devSwarmNode failsForDev1 executing) executing)
      "dev-1" "A".
Proof.
  intros [Hw _].
  destruct (Hw (AgentStatus.mk "dev-1" "Dev Agent 1" (Some "A") A_working (Some 0)))
    as [Hidle _].
  - vm_compute. left. reflexivity.
  - reflexivity.
  - discriminate.
Qed.

(** C7 (as the code has it).  Let [w] be a working worker whose story is
    active.  If its generation call rejects, the execute node rejects.  If
    its generation yields text that does not parse, no other call rejects
    and worker ids are distinct, then the node resolves; none of the changes
    it appends carries [w]'s id; every working worker whose generation
    parsed gets its change appended; [w] is kept in the roster as it was
    (still [working], same assigned story); the active stories are not
    touched (the story stays active and assigned). *)
Theorem failed_generation_keeps_worker : forall gen state w story,
  In w (workingAgents state) ->
  findStory (activeStories state) (AgentStatus.assignedStory w) = Some story ->
  (gen w story = GenThrows -> devSwarmNode gen state = Throw generationError)
  /\ (gen w story = GenText None ->
      (forall a s, In a (workingAgents state) ->
                   findStory (activeStories state) (AgentStatus.assignedStory a) = Some s ->
                   gen a s <> GenThrows) ->
      NoDup (map AgentStatus.id (agents state)) ->
      exists d changes,
        devSwarmNode gen state = Ok d
        /\ codeChanges (applyDelta state d) = codeChanges state ++ changes
        /\ (forall c, In c changes -> CodeChange.agentId c <> AgentStatus.id w)
        /\ (forall a s j, In a (workingAgents state) ->
              findStory (activeStories state) (AgentStatus.assignedStory a) = Some s ->
              gen a s = GenText (Some j) ->
              In (changeOf a s j) changes)
        /\ (forall i, nth_error (agents state) i = Some w ->
                      nth_error (agents (applyDelta state d)) i = Some w)
        /\ activeStories (applyDelta state d) = activeStories state).
Proof.
  intros gen state w story Hw Hstory.
  assert (isEmpty (workingAgents state) = false) as Hne
    by (eapply isEmpty_false_In; exact Hw).
  split.
  - intros Hthrow. unfold devSwarmNode. rewrite Hne.
    assert (awaitAll (map (devPromise gen state) (workingAgents state)) = None) as ->.
    { apply awaitAll_None. exists w. split; [assumption |].
      unfold devPromise. now rewrite Hstory, Hthrow. }
    reflexivity.
  - intros Hfail Hothers Hnd. unfold devSwarmNode. rewrite Hne.
    destruct (awaitAll (map (devPromise gen state) (workingAgents state)))
      as [changes|] eqn:Hall.
    2:{ apply awaitAll_None in Hall as (a & Ha & Hr). unfold devPromise in Hr.
        destruct (findStory _ (AgentStatus.assignedStory a)) as [s|] eqn:Hs;
          [|discriminate].
        specialize (Hothers a s Ha Hs).
        destruct (gen a s) as [|[j|]]; [congruence | discriminate | discriminate]. }
    assert (forall c, In c changes -> CodeChange.agentId c <> AgentStatus.id w)
      as Hnot.
    { intros c Hc Heq.
      apply (awaitAll_Some _ _ _ _ _ Hall) in Hc as (a & Ha & Hv).
      unfold devPromise in Hv.
      destruct (findStory _ (AgentStatus.assignedStory a)) as [s|] eqn:Hs;
        [|discriminate].
      destruct (gen a s) as [|[j|]] eqn:Hg; try discriminate.
      injection Hv as <-. simpl in Heq.
      assert (a = w) as ->.
      { unfold workingAgents in Ha, Hw.
        apply filter_In in Ha as [Ha _]. apply filter_In in Hw as [Hw _].
        eapply NoDup_map_In_eq; eauto. }
      congruence. }
    eexists. exists changes. split; [reflexivity |]. simpl.
    split; [reflexivity |]. split; [exact Hnot |]. split; [| split].
    + intros a s j Ha Hs Hg. apply (awaitAll_Some _ _ _ _ _ Hall).
      exists a. split; [assumption |]. unfold devPromise. now rewrite Hs, Hg.
    + intros i Hi. rewrite nth_error_map, Hi. simpl.
      destruct (existsb _ changes) eqn:Hex; [|reflexivity].
      apply existsb_exists in Hex as (c & Hc & Heq).
      apply String.eqb_eq in Heq. exfalso. now apply (Hnot c).
    + reflexivity.
Qed.

Lemma failed_generation_keeps_worker_witness :
  exists d changes,
    devSwarmNode failsForDev1 executing = Ok d
    /\ codeChanges (applyDelta executing d) = codeChanges executing ++ changes
    /\ (forall c, In c changes -> CodeChange.agentId c <> "dev-1")
    /\ nth_error (agents (applyDelta executing d)) 0
       = Some (AgentStatus.mk "dev-1" "Dev Agent 1" (Some "A") A_working (Some 0)).
Proof.
  destruct (failed_generation_keeps_worker failsForDev1 executing
              (AgentStatus.mk "dev-1" "Dev Agent 1" (Some "A") A_working (Some 0))
              (assignStory storyA "dev-1"))
    as [_ H].
  - vm_compute. left. reflexivity.
  - reflexivity.
  - destruct H as (d & changes & Hd & Hc & Hnot & _ & Hkeep & _).
    + reflexivity.
    + intros a s _ _. unfold failsForDev1.
      destruct (AgentStatus.id a =? "dev-1"); discriminate.
    + repeat constructor; simpl; intuition discriminate.
    + exists d, changes. repeat split; try assumption.
      apply Hkeep. reflexivity.
Defined.

(** ** C10: missing predecessor artifacts *)

(** C10.  Whatever the generation service would answer: the PM node without
    a project brief, the architect node without a PRD, and the shard node
    without a PRD or without an architecture reject with the message naming
    the missing artifact, so that no state delta is produced. *)
Theorem missing_predecessor_is_fatal : forall state reply now parse,
  (projectBrief state = None ->
   pmNode reply now state = Throw "Project brief is required for PRD creation")
  /\ (prd state = None ->
      architectNode reply now state
      = Throw "PRD is required for architecture creation")
  /\ (prd state = None \/ architecture state = None ->
      poShardNode reply parse state
      = Throw "PRD and Architecture are required for sharding").
Proof.
  intros state reply now parse. repeat split.
  - intros H. unfold pmNode. now rewrite H.
  - intros H. unfold architectNode. now rewrite H.
  - intros [H | H]; unfold poShardNode; rewrite H; [reflexivity |].
    destruct (prd state); reflexivity.
Qed.

Lemma missing_predecessor_is_fatal_witness :
  pmNode (ReplyText "a PRD") 0 emptyPlanning
  = Throw "Project brief is required for PRD creation"
  /\ architectNode (ReplyText "an architecture") 0 emptyPlanning
     = Throw "PRD is required for architecture creation"
  /\ poShardNode (ReplyText "{}") (fun _ => inr []) emptyPlanning
     = Throw "PRD and Architecture are required for sharding".
Proof.
  split; [| split].
  - apply (missing_predecessor_is_fatal emptyPlanning (ReplyText "a PRD") 0
             (fun _ => inr [])).
    reflexivity.
  - apply (missing_predecessor_is_fatal emptyPlanning (ReplyText "an architecture") 0
             (fun _ => inr [])).
    reflexivity.
  - apply (missing_predecessor_is_fatal emptyPlanning (ReplyText "{}") 0
             (fun _ => inr [])).
    left. reflexivity.
Defined.

(** ** C3 and C4: unblocking in the integrate node *)

Lemma allDepsCompleted_spec : forall done s,
  allDepsCompleted done s = true <-> depsAllIn done s.
Proof.
  intros done s. unfold allDepsCompleted, depsAllIn.
  destruct (Story.dependencies s) as [ds|].
  - rewrite forallb_forall. split.
    + intros H. exists ds. split; [reflexivity |].
      intros d Hd. apply existsb_id_In. now apply H.
    + intros (ds' & E & H) d Hd. injection E as <-.
      apply existsb_id_In. now apply H.
  - split; [discriminate | intros (ds & E & _); discriminate].
Qed.

Lemma unblockStep_fst : forall state acc x b,
  In b (fst (unblockStep state acc x))
  <-> In b (fst acc) \/ (x = b /\ foundWith state b true).
Proof.
  intros state acc x b. unfold unblockStep, foundWith.
  destruct (find (fun s => Story.id s =? x) (storyQueue state)) as [sx|] eqn:Fx.
  - destruct (allDepsCompleted _ sx) eqn:Dx; simpl; rewrite ?in_app_iff; simpl.
    + split.
      * intros [H | [<- | []]]; [now left | right].
        split; [reflexivity | now exists sx].
      * intros [H | [<- _]]; [now left | right; now left].
    + split; [now left | intros [H | [<- (s & Fs & Ds)]]; [exact H | congruence]].
  - split; [now left | intros [H | [<- (s & Fs & Ds)]]; [exact H | congruence]].
Qed.

Lemma unblockStep_snd : forall state acc x b,
  In b (snd (unblockStep state acc x))
  <-> In b (snd acc) \/ (x = b /\ foundWith state b false).
Proof.
  intros state acc x b. unfold unblockStep, foundWith.
  destruct (find (fun s => Story.id s =? x) (storyQueue state)) as [sx|] eqn:Fx.
  - destruct (allDepsCompleted _ sx) eqn:Dx; simpl; rewrite ?in_app_iff; simpl.
    + split; [now left | intros [H | [<- (s & Fs & Ds)]]; [exact H | congruence]].
    + split.
      * intros [H | [<- | []]]; [now left | right].
        split; [reflexivity | now exists sx].
      * intros [H | [<- _]]; [now left | right; now left].
  - split; [now left | intros [H | [<- (s & Fs & Ds)]]; [exact H | congruence]].
Qed.

(** The loop over [blockedStories] sorts the ids whose story is found in the
    backlog by [allDepsCompleted]; the others go to neither list. *)
Lemma unblock_fold : forall state b l acc,
  (In b (fst (fold_left (unblockStep state) l acc))
     <-> In b (fst acc) \/ (In b l /\ foundWith state b true))
  /\ (In b (snd (fold_left (unblockStep state) l acc))
     <-> In b (snd acc) \/ (In b l /\ foundWith state b false)).
Proof.
  intros state b l. induction l as [|x l IH]; intros acc; simpl.
  - split; (split; [now left | intros [H | [[] _]]; exact H]).
  - destruct (IH (unblockStep state acc x)) as [IH1 IH2].
    rewrite IH1, IH2, unblockStep_fst, unblockStep_snd. tauto.
Qed.

Lemma unblocked_iff : forall state b,
  In b (fst (unblockLoop state))
  <-> In b (blockedStories state) /\ foundWith state b true.
Proof.
  intros state b. unfold unblockLoop.
  rewrite (proj1 (unblock_fold state b (blockedStories state) ([], []))).
  simpl. tauto.
Qed.

Lemma stillBlocked_iff : forall state b,
  In b (snd (unblockLoop state))
  <-> In b (blockedStories state) /\ foundWith state b false.
Proof.
  intros state b. unfold unblockLoop.
  rewrite (proj2 (unblock_fold state b (blockedStories state) ([], []))).
  simpl. tauto.
Qed.

Lemma integrateNode_merges : forall state,
  reviewedChanges state <> [] ->
  completedStories (after (integrateNode state) state)
    = completedStories state ++ newlyCompleted state
  /\ storyQueue (after (integrateNode state) state) = updatedQueue state
  /\ blockedStories (after (integrateNode state) state) = snd (unblockLoop state)
  /\ activeStories (after (integrateNode state) state) = remainingActive state.
Proof.
  intros state Hne. unfold integrateNode.
  destruct (reviewedChanges state) as [|c cs]; [congruence |].
  simpl. now repeat split.
Qed.

(** C3 as stated fails: [B], blocked on the story [A] that this integrate
    phase completes, is put behind the untouched story [U]. *)
Lemma unblocked_not_in_front : ~ unblocksToFront integrating.
Proof.
  intros H.
  destruct (H "B" storyB) as [Hfront _]; [now left | reflexivity |].
  destruct Hfront as [_ Hahead].
  - intros d [<- | []]. vm_compute. now left.
  - destruct (Hahead storyU) as (l1 & l2 & Hl & HB & HU).
    + split; [now left |]. simpl. intros [E | []]. discriminate.
    + vm_compute in Hl.
      destruct l1 as [|x [|y [|z l1]]]; simpl in Hl, HB.
      * contradiction.
      * injection Hl as <- <-. destruct HB as [E | []]. discriminate.
      * injection Hl as <- <- <-. destruct HU.
      * injection Hl as _ _ Hl. destruct l1; discriminate.
Qed.

(** C3 (as the code has it).  In an integrate phase with at least one
    reviewed change, take a blocked id whose story is found in the backlog.
    If the story has a dependency list whose ids are all completed after the
    merge, the id leaves the blocked set and the story is in the new backlog
    behind every untouched backlog story.  Otherwise the id stays in the
    blocked set. *)
Theorem unblocked_go_behind : forall state b s,
  reviewedChanges state <> [] ->
  In b (blockedStories state) ->
  find (fun q => Story.id q =? b) (storyQueue state) = Some s ->
  (depsAllIn (completedStories (after (integrateNode state) state)) s ->
     ~ In b (blockedStories (after (integrateNode state) state))
     /\ In s (storyQueue (after (integrateNode state) state))
     /\ forall u, untouched state u ->
                  ahead u s (storyQueue (after (integrateNode state) state)))
  /\ (~ depsAllIn (completedStories (after (integrateNode state) state)) s ->
      In b (blockedStories (after (integrateNode state) state))).
Proof.
  intros state b s Hne Hb Hfind.
  destruct (integrateNode_merges state Hne) as (-> & -> & -> & _).
  rewrite <- allDepsCompleted_spec.
  split.
  - intros Hdeps.
    assert (In b (fst (unblockLoop state))) as Hun
      by (apply unblocked_iff; split; [assumption | now exists s]).
    assert (In s (filter (fun q => includes (fst (unblockLoop state)) (Story.id q))
                         (storyQueue state))) as Hs.
    { apply find_some in Hfind as [Hin Hid]. apply String.eqb_eq in Hid.
      apply filter_In. split; [assumption |]. apply includes_In. now rewrite Hid. }
    split; [| split].
    + intros Hstill. apply stillBlocked_iff in Hstill as (_ & s' & Hf & Hd).
      congruence.
    + unfold updatedQueue. apply in_or_app. now right.
    + intros u [Hu Hnb]. unfold updatedQueue.
      eexists. eexists. split; [reflexivity |]. split; [| exact Hs].
      apply filter_In. split; [assumption |].
      destruct (includes (blockedStories state) (Story.id u)) eqn:E; [| reflexivity].
      apply includes_In in E. contradiction.
  - intros Hdeps. apply stillBlocked_iff. split; [assumption |].
    exists s. split; [assumption |].
    destruct (allDepsCompleted _ s); [now elim Hdeps | reflexivity].
Qed.

Lemma unblocked_go_behind_witness :
  ~ In "B" (blockedStories (after (integrateNode integrating) integrating))
  /\ In storyB (storyQueue (after (integrateNode integrating) integrating))
  /\ ahead storyU storyB (storyQueue (after (integrateNode integrating) integrating)).
Proof.
  destruct (unblocked_go_behind integrating "B" storyB) as [H _].
  - vm_compute. discriminate.
  - now left.
  - reflexivity.
  - destruct H as (H1 & H2 & H3).
    + exists ["A"]. split; [reflexivity |].
      intros d [<- | []]. vm_compute. now left.
    + split; [exact H1 | split; [exact H2 |]].
      apply H3. split; [now left |]. simpl. intros [E | []]. discriminate.
Defined.

(** A blocked id whose story is not in the backlog is in neither output of
    the loop: once a change is merged it is gone from the blocked set. *)
Lemma integrate_forgets_unqueued : forall state b,
  reviewedChanges state <> [] ->
  (forall s, In s (storyQueue state) -> Story.id s <> b) ->
  ~ In b (blockedStories (after (integrateNode state) state))
  /\ ~ In b (ids (storyQueue (after (integrateNode state) state))).
Proof.
  intros state b Hne Hq.
  destruct (integrateNode_merges state Hne) as (_ & -> & -> & _).
  split.
  - intros H. apply stillBlocked_iff in H as (_ & s & Hf & _).
    apply find_some in Hf as [Hin Hid]. apply String.eqb_eq in Hid.
    now apply (Hq s).
  - intros H. unfold ids in H. apply in_map_iff in H as (s & Hid & Hin).
    unfold updatedQueue in Hin.
    apply in_app_or in Hin as [Hin | Hin]; apply filter_In in Hin as [Hin _];
      now apply (Hq s).
Qed.

(** C4 (the code departs from the claim).  The integrate node called on
    [mergingA], where the change for [A] is reviewed and the id [B] is
    blocked, returns an empty blocked set: it looks [B] up in the backlog,
    does not find it there (the draft node takes a story it blocks out of
    the backlog) and goes on to the next id; nothing completed that [B]
    waited for, and nothing is recorded.  A run meets this: entered with
    [enteredBlocked], with the files as they stand, it reaches the integrate
    node in the state [mergingA] after four super-steps and returns within
    the recursion limit, [B] in no set at all. *)
Theorem blocked_id_silently_dropped :
  integrateNode mergingA
  = Ok (mkSwarmDelta (Some []) (Some [completeStory (assignStory storyA "dev-1")])
          None None (Some [])
          (Some (map (fun c => setChangeStatus c C_merged) (codeChanges mergingA)))
          None (Some P_complete) (Some []))
  /\ runGraph 4 (asShipped alwaysSucceeds) entryPoint enteredBlocked
     = Some (integrate, mergingA)
  /\ exists final,
       invoke defaultRecursionLimit (asShipped alwaysSucceeds) enteredBlocked
       = Returns final
       /\ blockedStories final = []
       /\ storyQueue final = []
       /\ activeStories final = []
       /\ ids (completedStories final) = ["A"].
Proof.
  split; [vm_compute; reflexivity |].
  split; [vm_compute; reflexivity |].
  eexists. split; [vm_compute; reflexivity |]. repeat split.
Qed.

(** ** C5: assignment *)

(** C5 as stated fails: with the idle workers listed as [dev-2], [dev-1],
    story [A] goes to [dev-2], the first of the roster, not to [dev-1], the
    first by id. *)
Lemma workers_not_sorted_by_id : ~ pairsWithSortedWorkers unsortedRoster.
Proof.
  intros H.
  specialize (H 0 storyA (AgentStatus.mk "dev-1" "Dev Agent 1" None A_idle None)
                eq_refl eq_refl).
  vm_compute in H. destruct H as [E | [E | []]]; discriminate.
Qed.

Lemma nth_error_combine_iff : forall (A B : Type) (l : list A) (l' : list B) k x y,
  nth_error (combine l l') k = Some (x, y)
  <-> nth_error l k = Some x /\ nth_error l' k = Some y.
Proof.
  intros A B l. induction l as [|a l IH]; intros [|b l'] [|k] x y; simpl;
    try (split; [discriminate | intros [H1 H2]; discriminate]).
  - split; [intros H; injection H as <- <-; now split
           | intros [H1 H2]; congruence].
  - apply IH.
Qed.

Lemma combine_firstn_length : forall (A B : Type) (l : list A) (l' : list B),
  combine (firstn (length l') l) l' = combine l l'.
Proof.
  intros A B l. induction l as [|a l IH]; intros [|b l']; simpl; try reflexivity.
  now rewrite IH.
Qed.

Lemma assignments_nth : forall state p,
  In p (assignments state) <->
  exists k s a,
    nth_error (unassignedStories state) k = Some s
    /\ nth_error (idleAgents state) k = Some a
    /\ p = Assignment.mk (Story.id s) (AgentStatus.id a).
Proof.
  intros state p. unfold assignments. rewrite combine_firstn_length, in_map_iff.
  split.
  - intros ([s a] & <- & Hin). apply In_nth_error in Hin as [k Hk].
    apply nth_error_combine_iff in Hk as [Hs Ha]. now exists k, s, a.
  - intros (k & s & a & Hs & Ha & ->). exists (s, a). split; [reflexivity |].
    apply (nth_error_In _ k). now apply nth_error_combine_iff.
Qed.

Lemma assignments_length : forall state,
  length (assignments state)
  = min (length (unassignedStories state)) (length (idleAgents state)).
Proof.
  intros state. unfold assignments.
  now rewrite length_map, combine_firstn_length, length_combine.
Qed.

Lemma assignments_empty : forall state,
  isEmpty (idleAgents state) || isEmpty (unassignedStories state) = true ->
  assignments state = [].
Proof.
  intros state H. apply length_zero_iff_nil. rewrite assignments_length.
  apply orb_true_iff in H as [H | H]; apply isEmpty_true in H; rewrite H; simpl; lia.
Qed.

Lemma map_unchanged : forall (A : Type) (f : A -> A) l,
  (forall x, f x = x) -> map f l = l.
Proof.
  intros A f l H. induction l as [|x l IH]; simpl; [reflexivity |].
  now rewrite H, IH.
Qed.

(** Both branches of [assignNode] map the stories and the workers through
    the assignments (there are none on the early return). *)
Lemma assignNode_maps : forall state,
  activeStories (after (assignNode state) state)
    = map (updateStory (assignments state)) (activeStories state)
  /\ agents (after (assignNode state) state)
    = map (updateAgent (assignments state)) (agents state).
Proof.
  intros state. unfold assignNode.
  destruct (isEmpty (idleAgents state) || isEmpty (unassignedStories state)) eqn:E.
  - rewrite (assignments_empty state E). simpl.
    split; symmetry; apply map_unchanged; reflexivity.
  - simpl. split; reflexivity.
Qed.

Lemma nth_error_lt_Some : forall (A : Type) (l : list A) k,
  k < length l -> exists x, nth_error l k = Some x.
Proof.
  intros A l k H. destruct (nth_error l k) as [x|] eqn:E; [now exists x |].
  apply nth_error_None in E. lia.
Qed.

(** C5 (as the code has it).  On a state whose active stories have
    distinct ids and whose workers have distinct ids, the assign node pairs
    the [k]-th unassigned active story with the [k]-th idle worker of the
    roster (roster order, not id order), for the
    [min (unassigned stories) (idle workers)] first positions: a paired
    story records the worker's id and becomes [in_progress], a paired worker
    records the story's id and becomes [working] with progress 0, and every
    other story and worker is left as it was. *)
Theorem assign_pairs_in_roster_order : forall state,
  NoDup (ids (activeStories state)) ->
  NoDup (map AgentStatus.id (agents state)) ->
  length (assignments state)
    = min (length (unassignedStories state)) (length (idleAgents state))
  /\ (forall i s,
        nth_error (activeStories state) i = Some s ->
        (exists k a,
           nth_error (unassignedStories state) k = Some s
           /\ nth_error (idleAgents state) k = Some a
           /\ nth_error (activeStories (after (assignNode state) state)) i
              = Some (assignStory s (AgentStatus.id a)))
        \/ ((forall k, k < length (assignments state) ->
                       nth_error (unassignedStories state) k <> Some s)
            /\ nth_error (activeStories (after (assignNode state) state)) i = Some s))
  /\ (forall i a,
        nth_error (agents state) i = Some a ->
        (exists k s,
           nth_error (idleAgents state) k = Some a
           /\ nth_error (unassignedStories state) k = Some s
           /\ nth_error (agents (after (assignNode state) state)) i
              = Some (assignAgent a (Story.id s)))
        \/ ((forall k, k < length (assignments state) ->
                       nth_error (idleAgents state) k <> Some a)
            /\ nth_error (agents (after (assignNode state) state)) i = Some a)).
Proof.
  intros state Hstories Hagents.
  destruct (assignNode_maps state) as [-> ->].
  split; [apply assignments_length | split].
  - intros i s Hi. rewrite nth_error_map, Hi. simpl. unfold updateStory.
    destruct (find (fun a => Assignment.storyId a =? Story.id s) (assignments state))
      as [p|] eqn:F.
    + left. apply find_some in F as [Hin Hid]. apply String.eqb_eq in Hid.
      apply assignments_nth in Hin as (k & x & a & Hx & Ha & ->). simpl in Hid.
      assert (x = s) as ->.
      { apply (NoDup_map_In_eq _ _ Story.id (activeStories state)); auto.
        - apply nth_error_In in Hx. unfold unassignedStories in Hx.
          now apply filter_In in Hx.
        - eapply nth_error_In; exact Hi. }
      exists k, a. now repeat split.
    + right. split; [| reflexivity].
      intros k Hk Hs. rewrite assignments_length in Hk.
      destruct (nth_error_lt_Some _ (idleAgents state) k) as [a Ha]; [lia |].
      assert (In (Assignment.mk (Story.id s) (AgentStatus.id a)) (assignments state))
        as Hin by (apply assignments_nth; now exists k, s, a).
      apply (find_none _ _ F) in Hin. simpl in Hin.
      now rewrite String.eqb_refl in Hin.
  - intros i a Hi. rewrite nth_error_map, Hi. simpl. unfold updateAgent.
    destruct (find (fun p => Assignment.agentId p =? AgentStatus.id a)
                   (assignments state)) as [p|] eqn:F.
    + left. apply find_some in F as [Hin Hid]. apply String.eqb_eq in Hid.
      apply assignments_nth in Hin as (k & s & y & Hs & Hy & ->). simpl in Hid.
      assert (y = a) as ->.
      { apply (NoDup_map_In_eq _ _ AgentStatus.id (agents state)); auto.
        - apply nth_error_In in Hy. unfold idleAgents in Hy.
          now apply filter_In in Hy.
        - eapply nth_error_In; exact Hi. }
      exists k, s. now repeat split.
    + right. split; [| reflexivity].
      intros k Hk Ha. rewrite assignments_length in Hk.
      destruct (nth_error_lt_Some _ (unassignedStories state) k) as [s Hs]; [lia |].
      assert (In (Assignment.mk (Story.id s) (AgentStatus.id a)) (assignments state))
        as Hin by (apply assignments_nth; now exists k, s, a).
      apply (find_none _ _ F) in Hin. simpl in Hin.
      now rewrite String.eqb_refl in Hin.
Qed.

Lemma assign_pairs_in_roster_order_witness :
  length (assignments unsortedRoster) = 1
  /\ nth_error (activeStories (after (assignNode unsortedRoster) unsortedRoster)) 0
     = Some (assignStory storyA "dev-2")
  /\ nth_error (agents (after (assignNode unsortedRoster) unsortedRoster)) 1
     = Some (AgentStatus.mk "dev-1" "Dev Agent 1" None A_idle None).
Proof.
  destruct (assign_pairs_in_roster_order unsortedRoster) as (Hlen & Hs & Ha).
  - repeat constructor. simpl. intros [].
  - repeat constructor; simpl; intuition discriminate.
  - split; [exact Hlen | split; vm_compute; reflexivity].
Defined.

(** With two active stories of the same id, the assignment made for the
    unassigned one also overwrites the one already assigned: the hypothesis
    of distinct ids cannot be left out. *)
Lemma shared_id_is_reassigned :
  nth_error (activeStories (after (assignNode sharedId) sharedId)) 0
  = Some (assignStory storyA "dev-1").
Proof. vm_compute. reflexivity. Qed.

(** Without a reviewed change the integrate node returns before the
    unblocking loop: [B] stays blocked although [A] is completed. *)
Lemma no_unblocking_without_reviewed_change :
  depsAllIn (completedStories alreadyMerged) storyB
  /\ blockedStories (after (integrateNode alreadyMerged) alreadyMerged) = ["B"]
  /\ storyQueue (after (integrateNode alreadyMerged) alreadyMerged) = [storyU; storyB].
Proof.
  split; [| split; vm_compute; reflexivity].
  exists ["A"]. split; [reflexivity |]. intros d [<- | []]. vm_compute. now left.
Qed.

(** ** Runs from a fresh state draft one story only *)

Lemma filter_none : forall (A : Type) (f : A -> bool) l,
  (forall x, In x l -> f x = false) -> filter f l = [].
Proof.
  intros A f l H. induction l as [|x l IH]; simpl; [reflexivity |].
  rewrite (H x) by now left. apply IH. intros y Hy. apply H. now right.
Qed.

Lemma nextNode_not_draft : forall n state, nextNode n state <> sm_draft.
Proof.
  intros n state. destruct n; simpl; try discriminate.
  - unfold needsMoreDev. destruct (existsb _ _); discriminate.
  - unfold hasMoreWork. destruct (_ || _); discriminate.
Qed.

(** With nothing in flight, every node but the draft node returns early. *)
Lemma nothingInFlight_node : forall n o state d,
  n <> sm_draft ->
  nothingInFlight state ->
  runNode n o state = Ok d ->
  exists p, d = phaseOnly p \/ d = mkSwarmDelta None None None None None None None None None.
Proof.
  intros n o state d Hn (Hact & Hch & Hidle) H. destruct n; simpl in H.
  - congruence.
  - unfold assignNode, unassignedStories in H. rewrite Hact in H. simpl in H.
    rewrite orb_true_r in H. injection H as <-. exists P_execute. now left.
  - unfold devSwarmNode, workingAgents in H.
    rewrite filter_none in H.
    + injection H as <-. exists P_review. now left.
    + intros a Ha. unfold agentIs. now rewrite (Hidle a Ha).
  - unfold qaReviewNode, pendingChanges in H. rewrite Hch in H.
    injection H as <-. exists P_integrate. now left.
  - unfold integrateNode, reviewedChanges in H. rewrite Hch in H.
    injection H as <-. exists P_complete. now left.
  - injection H as <-. exists P_assign. now right.
Qed.

Lemma nothingInFlight_step : forall n state c',
  n <> sm_draft ->
  nothingInFlight state ->
  step (n, state) c' ->
  fst c' <> sm_draft
  /\ nothingInFlight (snd c')
  /\ blockedStories (snd c') = blockedStories state.
Proof.
  intros n state c' Hn Hnif Hstep. inversion Hstep as [n0 o s0 d Hne Hrun]; subst.
  simpl. split; [apply nextNode_not_draft |].
  destruct (nothingInFlight_node _ _ _ _ Hn Hnif Hrun) as (p & [-> | ->]);
    (split; [exact Hnif | reflexivity]).
Qed.

Lemma unblockLoop_no_blocked : forall state,
  blockedStories state = [] -> snd (unblockLoop state) = [].
Proof. intros state H. unfold unblockLoop. now rewrite H. Qed.

Lemma runNode_blocked_empty : forall n o state d,
  n <> sm_draft ->
  runNode n o state = Ok d ->
  blockedStories state = [] ->
  blockedStories (applyDelta state d) = [].
Proof.
  intros n o state d Hn H Hb. destruct n; simpl in H.
  - congruence.
  - unfold assignNode in H. destruct (_ || _); injection H as <-; exact Hb.
  - apply devSwarmNode_stories in H as (_ & _ & _ & E).
    unfold applyDelta. simpl. now rewrite E.
  - apply qaReviewNode_stories in H as (_ & _ & _ & E & _).
    unfold applyDelta. simpl. now rewrite E.
  - unfold integrateNode in H. destruct (isEmpty _); injection H as <-.
    + exact Hb.
    + simpl. now apply unblockLoop_no_blocked.
  - injection H as <-. exact Hb.
Qed.

(** The shape of a run from a fresh state: still at the entry point; or
    past it with an empty blocked set; or past it with nothing in flight. *)
Lemma fresh_run_shape : forall c,
  SwarmRun c ->
  (fst c = sm_draft /\ fresh (snd c))
  \/ (fst c <> sm_draft
      /\ (blockedStories (snd c) = [] \/ nothingInFlight (snd c))).
Proof.
  intros c (init & Hfresh & Hrun).
  apply (steps_invariant
           (fun c => (fst c = sm_draft /\ fresh (snd c))
                     \/ (fst c <> sm_draft
                         /\ (blockedStories (snd c) = [] \/ nothingInFlight (snd c))))
           (entryPoint, init)); [now left | | exact Hrun].
  clear c Hrun. intros c c' Hc Hstep. right.
  destruct Hc as [[Hn Hf] | [Hn Hc]].
  - inversion Hstep as [n o state d Hne Hnode]; subst. simpl in *. subst n.
    split; [discriminate |].
    destruct Hf as (Hact & Hcomp & Hch & Htr & Hbl & Hag).
    simpl in Hnode. unfold smDraftNode in Hnode.
    destruct (storyQueue state) as [|h rest];
      [injection Hnode as <-; now left |].
    destruct (smPrompt o) as [systemPrompt|e]; [| discriminate].
    destruct (draftGen o) as [|[parsed|]];
      [discriminate | | injection Hnode as <-; now left].
    destruct (isBlocked _ _); injection Hnode as <-; simpl.
    + right. repeat split; simpl; try assumption. intros a Ha. now apply Hag.
    + now left.
  - destruct c as [n state]. simpl in *.
    destruct Hc as [Hb | Hnif].
    + inversion Hstep as [n0 o s0 d Hne Hnode]; subst. simpl.
      split; [apply nextNode_not_draft |]. left.
      eapply runNode_blocked_empty; eauto.
    + destruct (nothingInFlight_step _ _ _ Hn Hnif Hstep) as (H1 & H2 & _).
      split; [exact H1 | now right].
Qed.

(** In a run from a fresh state the integrate node never gets to drop a
    blocked id: an id that is blocked stays blocked in every later
    configuration (the draft node ran once, nothing is in flight). *)
Lemma fresh_run_keeps_blocked : forall c c' b,
  SwarmRun c -> steps c c' ->
  In b (blockedStories (snd c)) -> In b (blockedStories (snd c')).
Proof.
  intros c c' b Hc Hsteps. induction Hsteps as [c | c c1 c2 H1 IH H2]; intros Hb.
  - exact Hb.
  - specialize (IH Hc Hb).
    assert (SwarmRun c1) as Hc1.
    { destruct Hc as (init & Hf & Hr). exists init. split; [exact Hf |].
      eapply steps_trans; eauto. }
    destruct (fresh_run_shape c1 Hc1) as [[_ Hf] | [Hn [Hbl | Hnif]]].
    + destruct Hf as (_ & _ & _ & _ & Hbl & _). rewrite Hbl in IH. contradiction.
    + rewrite Hbl in IH. contradiction.
    + destruct c1 as [n state]. simpl in *.
      destruct (nothingInFlight_step _ _ _ Hn Hnif H2) as (_ & _ & E).
      now rewrite E.
Qed.

(** ** The scenario of C1 under any generation service *)

Lemma ids_map_updateStory : forall asg l, ids (map (updateStory asg) l) = ids l.
Proof.
  intros asg l. unfold ids. rewrite map_map. apply map_ext.
  intros s. apply updateStory_id.
Qed.

Lemma draft_waitingB : forall prompt gen d,
  smDraftNode prompt gen scenario = Ok d -> waitingB (applyDelta scenario d).
Proof.
  intros prompt gen d H. unfold smDraftNode in H. simpl storyQueue in H.
  cbv iota in H.
  destruct prompt as [systemPrompt|e]; [| discriminate].
  destruct gen as [|[parsed|]]; [discriminate | |].
  - match type of H with (if ?b then _ else _) = _ => destruct b end;
      injection H as <-; unfold waitingB; simpl;
      repeat split; try (now left); intuition discriminate.
  - injection H as <-. unfold waitingB. simpl.
    repeat split; try (right; now left); intuition discriminate.
Qed.

Lemma integrateNode_waitingB : forall state d,
  integrateNode state = Ok d -> waitingB state -> waitingB (applyDelta state d).
Proof.
  intros state d H (Hq & Hb & Ha & Hc). unfold integrateNode in H.
  destruct (isEmpty _); injection H as <-; [now repeat split |].
  unfold waitingB. simpl. repeat split.
  - unfold updatedQueue. apply in_or_app. left. apply filter_In.
    split; [exact Hq |].
    destruct (includes (blockedStories state) (Story.id storyB)) eqn:E;
      [| reflexivity].
    apply includes_In in E. contradiction.
  - intros H. apply stillBlocked_iff in H as [H _]. contradiction.
  - intros H. unfold ids, remainingActive in H.
    apply in_map_iff in H as (s & Hid & Hin). apply filter_In in Hin as [Hin _].
    apply Ha. rewrite <- Hid. now apply In_ids.
  - rewrite ids_app. intros H. apply in_app_or in H as [H | H]; [contradiction |].
    unfold ids, newlyCompleted in H. rewrite map_map in H.
    apply in_map_iff in H as (s & Hid & Hin). apply filter_In in Hin as [Hin _].
    apply Ha. simpl in Hid. rewrite <- Hid. now apply In_ids.
Qed.

Lemma runNode_waitingB : forall n o state d,
  n <> sm_draft ->
  runNode n o state = Ok d -> waitingB state -> waitingB (applyDelta state d).
Proof.
  intros n o state d Hn H Hw. destruct n; simpl in H.
  - congruence.
  - destruct Hw as (Hq & Hb & Ha & Hc). unfold assignNode in H.
    destruct (_ || _); injection H as <-; [now repeat split |].
    unfold waitingB. simpl. rewrite ids_map_updateStory. now repeat split.
  - apply devSwarmNode_stories in H as (E1 & E2 & E3 & E4).
    unfold waitingB, applyDelta. simpl. rewrite E1, E2, E3, E4. exact Hw.
  - apply qaReviewNode_stories in H as (E1 & E2 & E3 & E4 & _).
    unfold waitingB, applyDelta. simpl. rewrite E1, E2, E3, E4. exact Hw.
  - eapply integrateNode_waitingB; eauto.
  - injection H as <-. exact Hw.
Qed.

(** Whatever the generation service answers, and however often, in every
    configuration the scenario reaches the run has not ended and [B] is
    still in the backlog, neither blocked nor completed. *)
Lemma scenario_stuck_for_any_service : forall c,
  steps (entryPoint, scenario) c -> stuckOnB c.
Proof.
  intros c Hrun.
  assert (fst c <> END /\ waitingB (snd c)
          /\ (fst c = sm_draft -> snd c = scenario)) as (Hn & Hw & _).
  { apply (steps_invariant
             (fun c => fst c <> END /\ waitingB (snd c)
                       /\ (fst c = sm_draft -> snd c = scenario))
             (entryPoint, scenario)); [| | exact Hrun].
    - split; [discriminate | split; [| reflexivity]].
      unfold waitingB. simpl. repeat split; try (right; now left); intros [].
    - clear c Hrun. intros c c' (Hn & Hw & Hinit) Hstep.
      inversion Hstep as [n o state d Hne Hnode]; subst. simpl in *.
      assert (waitingB (applyDelta state d)) as Hw'.
      { destruct n; try (eapply runNode_waitingB; eauto; discriminate).
        rewrite (Hinit eq_refl) in *. eapply draft_waitingB; exact Hnode. }
      split; [| split; [exact Hw' |]].
      + intros Hend. apply nextNode_END in Hend as (_ & Hq & _); [| exact Hne].
        destruct Hw' as (Hin & _). rewrite Hq in Hin. contradiction.
      + intros Hd. exfalso. now apply (nextNode_not_draft n (applyDelta state d)). }
  destruct Hw as (Hq & Hb & _ & Hc). now repeat split.
Qed.

(** * Further properties *)

(** ** What a run keeps *)

Section Relations.

Variable R : SwarmState -> SwarmState -> Prop.

Hypothesis R_refl : forall s, R s s.
Hypothesis R_trans : forall a b c, R a b -> R b c -> R a c.
Hypothesis R_node : forall n o state d,
  runNode n o state = Ok d -> R state (applyDelta state d).

(** A reflexive and transitive relation that every node establishes between
    its input and its output holds between any two states of a run. *)
Lemma steps_relation : forall c c', steps c c' -> R (snd c) (snd c').
Proof.
  intros c c' H. induction H as [c | a b c Hab IH Hbc].
  - apply R_refl.
  - apply (R_trans _ _ _ IH). inversion Hbc; subst. simpl. eapply R_node; eauto.
Qed.

End Relations.

Lemma updateAgent_rosterEntry : forall asg a,
  rosterEntry (updateAgent asg a) = rosterEntry a.
Proof.
  intros asg a. destruct (updateAgent_cases asg a) as [-> | (sid & ->)]; reflexivity.
Qed.

Lemma runNode_sameRoster : forall n o state d,
  runNode n o state = Ok d -> sameRoster state (applyDelta state d).
Proof.
  intros n o state d H. unfold sameRoster. destruct n; simpl in H.
  - unfold smDraftNode in H.
    destruct (storyQueue state); [injection H as <-; now split |].
    destruct (smPrompt o) as [systemPrompt|e]; [| discriminate].
    destruct (draftGen o) as [|[parsed|]];
      [discriminate | | injection H as <-; now split].
    destruct (isBlocked _ _); injection H as <-; now split.
  - unfold assignNode in H. destruct (_ || _); injection H as <-; [now split |].
    simpl. split; [| reflexivity]. rewrite map_map. apply map_ext.
    intros a. apply updateAgent_rosterEntry.
  - unfold devSwarmNode in H.
    destruct (isEmpty _); [injection H as <-; now split |].
    destruct (awaitAll _) as [changes|]; [injection H as <- | discriminate].
    simpl. split; [| reflexivity]. rewrite map_map. apply map_ext.
    intros a. destruct (existsb _ changes); reflexivity.
  - unfold qaReviewNode in H.
    destruct (isEmpty _); [injection H as <-; now split |].
    destruct (awaitAll _); [injection H as <-; now split | discriminate].
  - unfold integrateNode in H. destruct (isEmpty _); injection H as <-; now split.
  - injection H as <-. now split.
Qed.

Lemma steps_sameRoster : forall c c',
  steps c c' -> sameRoster (snd c) (snd c').
Proof.
  apply steps_relation.
  - intros s. now split.
  - intros a b c [H1 H2] [H3 H4]. split; congruence.
  - exact runNode_sameRoster.
Qed.

(** X1.  Between any two configurations of a run, whatever the start state
    and the answers of the generation service, the roster lists the same
    workers (id and name) in the same order and the worker limit is the
    same: nodes only rewrite a worker's status, story and progress. *)
Theorem roster_is_preserved : forall c c',
  steps c c' -> sameRoster (snd c) (snd c').
Proof.
  apply steps_relation.
  - intros s. now split.
  - intros a b c [Hab Hab'] [Hbc Hbc']. split.
    + now rewrite Hbc, Hab.
    + now rewrite Hbc', Hab'.
  - exact runNode_sameRoster.
Qed.

Lemma roster_is_preserved_witness :
  steps (entryPoint, scenario) (assign, scenarioLoop)
  /\ map rosterEntry (agents scenarioLoop)
     = [("dev-1", "Dev Agent 1"); ("dev-2", "Dev Agent 2")].
Proof.
  assert (steps (entryPoint, scenario) (assign, scenarioLoop)) as Hrun
    by (apply (runGraph_steps 9 alwaysSucceeds); exact scenario_enters_loop).
  split; [exact Hrun |].
  exact (proj1 (roster_is_preserved _ _ Hrun)).
Defined.

(** *** The roster built by the start command *)

Lemma showNat_inj : forall n m, showNat n = showNat m -> n = m.
Proof.
  intros n m H. unfold showNat in H.
  apply DecimalNat.Unsigned.to_uint_inj.
  assert (Some (Nat.to_uint n) = Some (Nat.to_uint m)) as E
    by (rewrite <- !NilEmpty.usu; now rewrite H).
  now injection E.
Qed.

Lemma makeAgents_ids_NoDup : forall n,
  NoDup (map AgentStatus.id (makeAgents n)).
Proof.
  intros n. unfold makeAgents. rewrite map_map. simpl.
  assert (forall l, NoDup l ->
            NoDup (map (fun i => ("dev-" ++ showNat (i + 1))%string) l)) as Hmap.
  { induction l as [|x l IH]; intros Hnd; simpl; [constructor |].
    inversion Hnd as [|? ? Hnotin Hnd']; subst. constructor.
    - intros Hin. apply in_map_iff in Hin as (y & Heq & Hy).
      injection Heq as Heq. apply showNat_inj in Heq.
      assert (y = x) by lia. subst. contradiction.
    - now apply IH. }
  apply Hmap. apply seq_NoDup.
Qed.

Lemma toLength_nonneg : forall n, (0 <= toLength n)%Z.
Proof.
  intros [|[|]|num den]; simpl; try lia.
Qed.

Lemma toLength_ofNat : forall m,
  (Z.of_nat m <= maxArrayLength)%Z -> toLength (ofNat m) = Z.of_nat m.
Proof.
  intros m Hm. unfold maxArrayLength in Hm. unfold ofNat, toLength.
  rewrite Z.div_1_r.
  assert (2 ^ 32 - 1 <= 2 ^ 53 - 1)%Z by (vm_compute; discriminate).
  lia.
Qed.

Lemma toLength_negative : forall num den,
  (num < 0)%Z -> toLength (Finite num den) = 0%Z.
Proof.
  intros num den Hneg. unfold toLength.
  assert (num / Z.pos den < 0)%Z by (apply Z.div_lt_upper_bound; lia).
  rewrite Z.max_r by lia. reflexivity.
Qed.

(** X2.  The start command, for the option [maxAgents] as any number.  The
    worker limit is [options.maxAgents || 3]: 3 when the option is absent,
    [NaN] or zero, the option itself otherwise.  The roster is to have
    [ToLength] of it workers: as many as it says when it is a natural
    number, none when it is negative.  When that length is more than an
    array can have, [Array.from] throws and no state is built.  Otherwise
    the state is built: its field [maxAgents] is the worker limit, its
    roster has that length, its workers are idle with no story and have
    pairwise distinct ids; and in every configuration the run reaches the
    ids are still pairwise distinct and the roster has as many workers as
    at the start. *)
Theorem initial_roster_is_distinct : forall backlog optMaxAgents,
  let limit := orNumber optMaxAgents 3 in
  (optMaxAgents = None \/ optMaxAgents = Some NaN
   \/ (exists den, optMaxAgents = Some (Finite 0 den)) ->
   limit = ofNat 3 /\ toLength limit = 3%Z)
  /\ (forall m,
        optMaxAgents = Some (ofNat (S m)) ->
        (Z.of_nat (S m) <= maxArrayLength)%Z ->
        limit = ofNat (S m) /\ toLength limit = Z.of_nat (S m))
  /\ (forall num den,
        optMaxAgents = Some (Finite num den) -> (num < 0)%Z ->
        limit = Finite num den /\ toLength limit = 0%Z)
  /\ ((maxArrayLength < toLength limit)%Z ->
      buildInitialState backlog optMaxAgents = Throw "Invalid array length")
  /\ ((toLength limit <= maxArrayLength)%Z ->
      exists init,
        buildInitialState backlog optMaxAgents = Ok init
        /\ storyQueue init = backlog
        /\ maxAgents init = limit
        /\ Z.of_nat (length (agents init)) = toLength limit
        /\ (forall a, In a (agents init) ->
              AgentStatus.status a = A_idle /\ AgentStatus.assignedStory a = None)
        /\ NoDup (map AgentStatus.id (agents init))
        /\ forall c,
             steps (entryPoint, init) c ->
             NoDup (map AgentStatus.id (agents (snd c)))
             /\ length (agents (snd c)) = length (agents init)).
Proof.
  intros backlog optMaxAgents limit.
  split.
  { intros [-> | [-> | (den & ->)]]; split; reflexivity. }
  split.
  { intros m -> Hm. split; [reflexivity |].
    change limit with (ofNat (S m)). now apply toLength_ofNat. }
  split.
  { intros num den -> Hneg.
    assert ((num =? 0)%Z = false) as E by (apply Z.eqb_neq; lia).
    assert (limit = Finite num den) as -> by (subst limit; simpl; now rewrite E).
    split; [reflexivity | now apply toLength_negative]. }
  split.
  { intros Hover. unfold buildInitialState. fold limit.
    destruct (Z.ltb_spec maxArrayLength (toLength limit)); [reflexivity | lia]. }
  intros Hfits. exists (initialState backlog optMaxAgents).
  assert (NoDup (map AgentStatus.id (agents (initialState backlog optMaxAgents))))
    as Hnd by apply makeAgents_ids_NoDup.
  split.
  { unfold buildInitialState. fold limit.
    destruct (Z.ltb_spec maxArrayLength (toLength limit)); [lia | reflexivity]. }
  split; [reflexivity |]. split; [reflexivity |].
  split.
  { simpl. unfold makeAgents. rewrite length_map, length_seq.
    apply Z2Nat.id. apply toLength_nonneg. }
  split.
  { intros a Ha. apply (initialState_fresh backlog optMaxAgents). exact Ha. }
  split; [exact Hnd |].
  intros c Hrun. destruct (steps_sameRoster _ _ Hrun) as [Hr _].
  simpl fst in *; simpl snd in *. split.
  - assert (map AgentStatus.id (agents (snd c))
            = map AgentStatus.id (agents (initialState backlog optMaxAgents))) as ->.
    { transitivity (map fst (map rosterEntry (agents (snd c))));
        [symmetry; apply map_map |].
      rewrite Hr. apply map_map. }
    exact Hnd.
  - rewrite <- (length_map rosterEntry (agents (snd c))), Hr.
    apply length_map.
Qed.

(** [runSwarmWorkflow({ maxAgents: -1 })] builds a state with no worker and
    the worker limit -1; with [maxAgents: 2.5], two workers; with
    [maxAgents: Infinity], no state: it throws. *)
Lemma initial_roster_is_distinct_witness :
  (exists init,
     buildInitialState [] (Some (Finite (-1) 1)) = Ok init
     /\ maxAgents init = Finite (-1) 1
     /\ Z.of_nat (length (agents init)) = 0%Z)
  /\ (exists init,
        buildInitialState [] (Some (Finite 5 2)) = Ok init
        /\ Z.of_nat (length (agents init)) = 2%Z
        /\ NoDup (map AgentStatus.id (agents init)))
  /\ buildInitialState [] (Some (Infinite false)) = Throw "Invalid array length".
Proof.
  destruct (initial_roster_is_distinct [] (Some (Finite (-1) 1)))
    as (_ & _ & Hneg & _ & Hbuilt).
  destruct (Hneg (-1)%Z 1%positive eq_refl ltac:(lia)) as [Hlimit Hlen].
  destruct Hbuilt as (init & Hb & _ & Hm & Hl & _);
    [rewrite Hlen; vm_compute; discriminate |].
  destruct (initial_roster_is_distinct [] (Some (Finite 5 2)))
    as (_ & _ & _ & _ & Hbuilt2).
  destruct Hbuilt2 as (init2 & Hb2 & _ & _ & Hl2 & _ & Hnd2 & _);
    [vm_compute; discriminate |].
  destruct (initial_roster_is_distinct [] (Some (Infinite false)))
    as (_ & _ & _ & Hthrow & _).
  split.
  { exists init. split; [exact Hb |]. split; [now rewrite Hm |].
    now rewrite Hl, Hlen. }
  split.
  { exists init2. split; [exact Hb2 |]. split; [exact Hl2 | exact Hnd2]. }
  apply Hthrow. vm_compute. reflexivity.
Defined.

(** *** Code changes and completed stories are append-only *)

Lemma changesKept_refl : forall s, changesKept s s.
Proof. intros s i c H. exists c. now repeat split. Qed.

Lemma changesKept_trans : forall a b c,
  changesKept a b -> changesKept b c -> changesKept a c.
Proof.
  intros a b c Hab Hbc i x Hx.
  destruct (Hab i x Hx) as (y & Hy & Ey & Py).
  destruct (Hbc i y Hy) as (z & Hz & Ez & Pz).
  exists z. split; [exact Hz | split; [congruence | auto]].
Qed.

(** A pointwise rewrite of the changes that only touches the status and
    never writes [pending]. *)
Lemma changesKept_map : forall state state' (f : CodeChange.t -> CodeChange.t),
  codeChanges state' = map f (codeChanges state) ->
  (forall c, changeContent (f c) = changeContent c) ->
  (forall c, CodeChange.status c <> C_pending -> CodeChange.status (f c) <> C_pending) ->
  changesKept state state'.
Proof.
  intros state state' f E Hc Hs i c Hi. exists (f c).
  rewrite E, nth_error_map, Hi. simpl. repeat split; auto.
Qed.

Lemma changesKept_same : forall state state',
  codeChanges state' = codeChanges state -> changesKept state state'.
Proof. intros state state' E i c Hi. exists c. rewrite E. now repeat split. Qed.

Lemma runNode_changesKept : forall n o state d,
  runNode n o state = Ok d -> changesKept state (applyDelta state d).
Proof.
  intros n o state d H. destruct n; simpl in H.
  - apply changesKept_same. unfold smDraftNode in H.
    destruct (storyQueue state); [injection H as <-; reflexivity |].
    destruct (smPrompt o) as [systemPrompt|e]; [| discriminate].
    destruct (draftGen o) as [|[parsed|]];
      [discriminate | | injection H as <-; reflexivity].
    destruct (isBlocked _ _); injection H as <-; reflexivity.
  - apply changesKept_same. unfold assignNode in H.
    destruct (_ || _); injection H as <-; reflexivity.
  - unfold devSwarmNode in H.
    destruct (isEmpty _); [injection H as <-; now apply changesKept_same |].
    destruct (awaitAll _) as [changes|]; [injection H as <- | discriminate].
    intros i c Hi. exists c. simpl.
    rewrite nth_error_app1 by (apply nth_error_Some; congruence).
    now repeat split.
  - unfold qaReviewNode in H.
    destruct (isEmpty _); [injection H as <-; now apply changesKept_same |].
    destruct (awaitAll _) as [results|]; [injection H as <- | discriminate].
    eapply changesKept_map; [simpl; reflexivity | |]; intros c; cbv beta.
    + destruct (find _ results) as [r|]; [| reflexivity].
      destruct (TestResult.approved r); reflexivity.
    + intros Hc. destruct (find _ results) as [r|]; [| exact Hc].
      destruct (TestResult.approved r); [discriminate | exact Hc].
  - unfold integrateNode in H.
    destruct (isEmpty _); [injection H as <-; now apply changesKept_same |].
    injection H as <-.
    eapply changesKept_map; [simpl; reflexivity | |]; intros c; cbv beta.
    + destruct (changeIs C_reviewed c); reflexivity.
    + intros Hc. destruct (changeIs C_reviewed c); [discriminate | exact Hc].
  - injection H as <-. now apply changesKept_same.
Qed.

(** X3.  Between any two configurations of a run, every code change stays
    at its position in the list with the same story, worker, files and
    commit message; only its status is rewritten, and a change that has left
    [pending] never goes back to it. *)
Theorem code_changes_are_append_only : forall c c',
  steps c c' -> changesKept (snd c) (snd c').
Proof.
  apply steps_relation.
  - exact changesKept_refl.
  - exact changesKept_trans.
  - exact runNode_changesKept.
Qed.

Lemma code_changes_are_append_only_witness :
  steps (afterSteps 3) (afterSteps 9)
  /\ exists c', nth_error (codeChanges (snd (afterSteps 9))) 0 = Some c'
                /\ CodeChange.storyId c' = "A"
                /\ CodeChange.agentId c' = "dev-1".
Proof.
  assert (steps (afterSteps 3) (afterSteps 9)) as Hrun.
  { apply (runGraph_steps 6 alwaysSucceeds). vm_compute. reflexivity. }
  split; [exact Hrun |].
  destruct (code_changes_are_append_only _ _ Hrun 0
              (CodeChange.mk "A" "dev-1"
                 [FileChange.mk "src/a.ts" F_create (Some "x") None] "feat: a" C_pending))
    as (c' & Hc' & Hcontent & _).
  - vm_compute. reflexivity.
  - exists c'. split; [exact Hc' |].
    unfold changeContent in Hcontent. simpl in Hcontent.
    injection Hcontent as H1 H2 _ _. now split.
Defined.

Lemma runNode_completedKept : forall n o state d,
  runNode n o state = Ok d -> completedKept state (applyDelta state d).
Proof.
  intros n o state d H.
  assert (d_completedStories d = None -> completedKept state (applyDelta state d))
    as Hnone.
  { intros E. exists []. simpl. rewrite E. simpl. now rewrite app_nil_r. }
  destruct n; simpl in H.
  - apply Hnone. unfold smDraftNode in H.
    destruct (storyQueue state); [injection H as <-; reflexivity |].
    destruct (smPrompt o) as [systemPrompt|e]; [| discriminate].
    destruct (draftGen o) as [|[parsed|]];
      [discriminate | | injection H as <-; reflexivity].
    destruct (isBlocked _ _); injection H as <-; reflexivity.
  - apply Hnone. unfold assignNode in H.
    destruct (_ || _); injection H as <-; reflexivity.
  - apply Hnone. now apply devSwarmNode_stories in H.
  - apply Hnone. now apply qaReviewNode_stories in H.
  - unfold integrateNode in H.
    destruct (isEmpty _); injection H as <-; [now apply Hnone |].
    now exists (newlyCompleted state).
  - apply Hnone. injection H as <-. reflexivity.
Qed.

(** X4.  Between any two configurations of a run the completed list only
    grows at its end: the stories completed earlier are still there, in
    order and unchanged. *)
Theorem completed_stories_only_grow : forall c c',
  steps c c' -> completedKept (snd c) (snd c').
Proof.
  apply steps_relation.
  - intros s. exists []. now rewrite app_nil_r.
  - intros a b c [m1 H1] [m2 H2]. exists (m1 ++ m2).
    now rewrite H2, H1, app_assoc.
  - exact runNode_completedKept.
Qed.

Lemma completed_stories_only_grow_witness :
  steps (afterSteps 5) (afterSteps 9)
  /\ exists more,
       completedStories (snd (afterSteps 9))
       = completedStories (snd (afterSteps 5)) ++ more.
Proof.
  assert (steps (afterSteps 5) (afterSteps 9)) as Hrun.
  { apply (runGraph_steps 4 alwaysSucceeds). vm_compute. reflexivity. }
  split; [exact Hrun |].
  exact (completed_stories_only_grow _ _ Hrun).
Defined.

(** ** The assign node pairs each story and each worker at most once *)

Lemma NoDup_map_filter : forall (A B : Type) (f : A -> B) (p : A -> bool) l,
  NoDup (map f l) -> NoDup (map f (filter p l)).
Proof.
  intros A B f p l. induction l as [|x l IH]; simpl; intros H; [constructor |].
  inversion H as [|? ? Hnot Hnd]; subst.
  destruct (p x); simpl; [| now apply IH].
  constructor; [| now apply IH].
  intros Hin. apply Hnot. apply in_map_iff in Hin as (y & <- & Hy).
  apply in_map. now apply filter_In in Hy.
Qed.

Lemma NoDup_map_fst_combine : forall (A B C : Type) (f : A -> C) (l : list A) (l' : list B),
  NoDup (map f l) -> NoDup (map f (map fst (combine l l'))).
Proof.
  intros A B C f l. induction l as [|x l IH]; intros [|y l'] H; simpl;
    try constructor.
  - inversion H as [|? ? Hnot Hnd]; subst.
    intros Hin. apply Hnot. apply in_map_iff in Hin as (z & <- & Hz).
    apply in_map. apply in_map_iff in Hz as ([a b] & <- & Hab).
    simpl. eapply in_combine_l; exact Hab.
  - inversion H; subst. now apply IH.
Qed.

Lemma NoDup_map_snd_combine : forall (A B C : Type) (f : B -> C) (l : list A) (l' : list B),
  NoDup (map f l') -> NoDup (map f (map snd (combine l l'))).
Proof.
  intros A B C f l. induction l as [|x l IH]; intros [|y l'] H; simpl;
    try constructor.
  - inversion H as [|? ? Hnot Hnd]; subst.
    intros Hin. apply Hnot. apply in_map_iff in Hin as (z & <- & Hz).
    apply in_map. apply in_map_iff in Hz as ([a b] & <- & Hab).
    simpl. eapply in_combine_r; exact Hab.
  - inversion H; subst. now apply IH.
Qed.

(** X5.  On a state whose active stories have distinct ids and whose
    workers have distinct ids, the assignments of the assign node pair
    unassigned active stories with idle workers only, no story id occurs in
    two assignments and no worker id occurs in two assignments. *)
Theorem assignment_is_injective : forall state,
  NoDup (ids (activeStories state)) ->
  NoDup (map AgentStatus.id (agents state)) ->
  NoDup (map Assignment.storyId (assignments state))
  /\ NoDup (map Assignment.agentId (assignments state))
  /\ forall p, In p (assignments state) ->
       exists s a,
         In s (unassignedStories state) /\ In a (idleAgents state)
         /\ p = Assignment.mk (Story.id s) (AgentStatus.id a).
Proof.
  intros state Hs Ha. split; [| split].
  - unfold assignments. rewrite combine_firstn_length, map_map. simpl.
    rewrite <- (map_map fst Story.id).
    apply NoDup_map_fst_combine. unfold unassignedStories.
    now apply NoDup_map_filter.
  - unfold assignments. rewrite combine_firstn_length, map_map. simpl.
    rewrite <- (map_map snd AgentStatus.id).
    apply NoDup_map_snd_combine. unfold idleAgents.
    now apply NoDup_map_filter.
  - intros p Hp. apply assignments_nth in Hp as (k & s & a & Hk & Hk' & ->).
    exists s, a. repeat split; eapply nth_error_In; eauto.
Qed.

Lemma assignment_is_injective_witness :
  NoDup (map Assignment.storyId (assignments unsortedRoster))
  /\ NoDup (map Assignment.agentId (assignments unsortedRoster)).
Proof.
  destruct (assignment_is_injective unsortedRoster) as (H1 & H2 & _).
  - repeat constructor. simpl. intros [].
  - repeat constructor; simpl; intuition discriminate.
  - split; assumption.
Defined.

(** ** What the integrate node does with the active stories *)

Lemma filter_split_length : forall (A : Type) (p : A -> bool) l,
  length (filter (fun x => negb (p x)) l) + length (filter p l) = length l.
Proof.
  intros A p l. induction l as [|x l IH]; simpl; [reflexivity |].
  destruct (p x); simpl; lia.
Qed.

(** X6.  When the integrate node merges (there is a reviewed change): no
    change is left [reviewed]; an active story is moved to the end of the
    completed list with status [completed] exactly when a reviewed change
    carries its id, and stays active otherwise; no story is lost or
    duplicated between the two lists. *)
Theorem integrate_partitions_active : forall state,
  reviewedChanges state <> [] ->
  reviewedChanges (after (integrateNode state) state) = []
  /\ completedStories (after (integrateNode state) state)
     = completedStories state ++ newlyCompleted state
  /\ length (activeStories (after (integrateNode state) state))
     + length (newlyCompleted state) = length (activeStories state)
  /\ forall s, In s (activeStories state) ->
       (In (Story.id s) (completedStoryIds state) ->
          In (completeStory s) (newlyCompleted state)
          /\ ~ In s (activeStories (after (integrateNode state) state)))
       /\ (~ In (Story.id s) (completedStoryIds state) ->
           In s (activeStories (after (integrateNode state) state))).
Proof.
  intros state Hne.
  destruct (integrateNode_merges state Hne) as (Hc & _ & _ & Ha).
  rewrite Hc, Ha. split; [| split; [reflexivity | split]].
  - unfold integrateNode. destruct (reviewedChanges state) as [|c0 cs] eqn:E;
      [congruence |]. simpl. unfold reviewedChanges. simpl.
    apply filter_none. intros c Hin. apply in_map_iff in Hin as (x & <- & _).
    destruct (changeIs C_reviewed x) eqn:Ex; [reflexivity | exact Ex].
  - unfold remainingActive, newlyCompleted. rewrite length_map.
    apply filter_split_length.
  - intros s Hs. split.
    + intros Hid. apply includes_In in Hid. split.
      * unfold newlyCompleted. apply in_map. apply filter_In. now split.
      * unfold remainingActive. intros H. apply filter_In in H as [_ H].
        rewrite Hid in H. discriminate.
    + intros Hid. unfold remainingActive. apply filter_In.
      split; [exact Hs |].
      destruct (includes (completedStoryIds state) (Story.id s)) eqn:E;
        [| reflexivity].
      apply includes_In in E. contradiction.
Qed.

Lemma integrate_partitions_active_witness :
  reviewedChanges (after (integrateNode integrating) integrating) = []
  /\ completedStories (after (integrateNode integrating) integrating)
     = [completeStory (assignStory storyA "dev-1")]
  /\ activeStories (after (integrateNode integrating) integrating) = [].
Proof.
  destruct (integrate_partitions_active integrating) as (H1 & H2 & _).
  - vm_compute. discriminate.
  - split; [exact H1 | split; [rewrite H2 |]; vm_compute; reflexivity].
Defined.

(** ** Review routing *)

Lemma existsb_failed_iff : forall results,
  existsb (fun r => gtZero (TestResult.failed r)) results = true
  <-> exists r, In r results /\ gtZero (TestResult.failed r) = true.
Proof. intros results. apply existsb_exists. Qed.

(** X7.  When the review node reviewed a batch (there was a pending change
    and no call rejected), the graph goes back to the execute node exactly
    when one of the batch's results reports a failed test, whichever story
    it is about, and to the integrate node otherwise; the phase tag written
    by the node agrees with the edge, and stories and workers are not
    touched. *)
Theorem review_routes_whole_batch : forall gen state d,
  pendingChanges state <> [] ->
  qaReviewNode gen state = Ok d ->
  (nextNode qa_review (applyDelta state d) = dev_swarm
   <-> exists r, In r (testResults (applyDelta state d))
                 /\ gtZero (TestResult.failed r) = true)
  /\ (nextNode qa_review (applyDelta state d) = dev_swarm
      <-> phase (applyDelta state d) = P_execute)
  /\ (nextNode qa_review (applyDelta state d) = integrate
      <-> phase (applyDelta state d) = P_integrate)
  /\ activeStories (applyDelta state d) = activeStories state
  /\ agents (applyDelta state d) = agents state.
Proof.
  intros gen state d Hne H. unfold qaReviewNode in H.
  destruct (pendingChanges state) as [|c0 cs] eqn:Ep; [congruence |].
  simpl isEmpty in H. cbv iota in H.
  destruct (awaitAll _) as [results|]; [injection H as <- | discriminate].
  simpl. unfold needsMoreDev. simpl.
  rewrite <- existsb_failed_iff.
  destruct (existsb (fun r => gtZero (TestResult.failed r)) results);
    repeat split; intros; try reflexivity; try discriminate.
Qed.

Lemma review_routes_whole_batch_witness :
  nextNode qa_review (snd (soloAfter 4)) = integrate
  /\ phase (snd (soloAfter 4)) = P_integrate.
Proof.
  assert (qaReviewNode (qaGen alwaysSucceeds) (snd (soloAfter 3))
          = Ok (mkSwarmDelta None None None None None
                  (Some (codeChanges (snd (soloAfter 4))))
                  (Some (testResults (snd (soloAfter 4))))
                  (Some P_integrate) None)) as Hnode
    by (vm_compute; reflexivity).
  assert (pendingChanges (snd (soloAfter 3)) <> []) as Hpending
    by (vm_compute; discriminate).
  destruct (review_routes_whole_batch _ _ _ Hpending Hnode) as (_ & _ & Hint & _).
  split; [exact (proj2 Hint eq_refl) | vm_compute; reflexivity].
Defined.

(** X8.  A stalled review never gets to the integrate node.  If no worker
    is working, no change is pending and a stored test result reports a
    failed test, then every configuration reached from the execute node is
    at the execute or at the review node, never at the integrate node or at
    [END]; it is stalled in the same way, and its code changes, its active
    and completed stories and its backlog are those of the start: the two
    nodes return at once and the stored results are never refreshed. *)
Theorem stalled_review_never_integrates : forall state c,
  reviewStalled state ->
  steps (dev_swarm, state) c ->
  (fst c = dev_swarm \/ fst c = qa_review)
  /\ fst c <> integrate
  /\ fst c <> END
  /\ reviewStalled (snd c)
  /\ codeChanges (snd c) = codeChanges state
  /\ activeStories (snd c) = activeStories state
  /\ completedStories (snd c) = completedStories state
  /\ storyQueue (snd c) = storyQueue state.
Proof.
  intros state c Hst Hrun.
  assert (forall n o s d,
            (n = dev_swarm \/ n = qa_review) -> reviewStalled s ->
            runNode n o s = Ok d ->
            exists p, d = phaseOnly p
                      /\ (nextNode n (applyDelta s d) = dev_swarm
                          \/ nextNode n (applyDelta s d) = qa_review)) as Hnode.
  { intros n o s d Hn (Hw & Hp & Hf) H. destruct Hn as [-> | ->]; simpl in H.
    - unfold devSwarmNode in H. rewrite Hw in H. injection H as <-.
      exists P_review. split; [reflexivity | now right].
    - unfold qaReviewNode in H. rewrite Hp in H. injection H as <-.
      exists P_integrate. split; [reflexivity |]. left. simpl.
      unfold needsMoreDev. simpl. now rewrite Hf. }
  assert ((fst c = dev_swarm \/ fst c = qa_review)
          /\ reviewStalled (snd c)
          /\ codeChanges (snd c) = codeChanges state
          /\ activeStories (snd c) = activeStories state
          /\ completedStories (snd c) = completedStories state
          /\ storyQueue (snd c) = storyQueue state) as (Hn & Hs & H1 & H2 & H3 & H4).
  { apply (steps_invariant
             (fun c => (fst c = dev_swarm \/ fst c = qa_review)
                       /\ reviewStalled (snd c)
                       /\ codeChanges (snd c) = codeChanges state
                       /\ activeStories (snd c) = activeStories state
                       /\ completedStories (snd c) = completedStories state
                       /\ storyQueue (snd c) = storyQueue state)
             (dev_swarm, state)); [| | exact Hrun].
    + simpl. split; [now left | split; [exact Hst | now repeat split]].
    + clear c Hrun. intros c c' (Hn & Hs & H1 & H2 & H3 & H4) Hstep.
      inversion Hstep as [n o s d Hne Hrun]; subst. simpl in *.
      destruct (Hnode n o s d Hn Hs Hrun) as (p & -> & Hnext).
      split; [exact Hnext | split; [exact Hs | now repeat split]]. }
  split; [exact Hn |].
  split; [destruct Hn as [-> | ->]; discriminate |].
  split; [destruct Hn as [-> | ->]; discriminate |].
  split; [exact Hs |]. split; [exact H1 |]. split; [exact H2 |].
  split; [exact H3 | exact H4].
Qed.

(** The run entered with [resumed], whose review approves the change and
    reports a failed test, is stalled after that review. *)
Lemma stalled_reached :
  runGraph 4 (asShipped approvesWithFailure) entryPoint resumed
  = Some (dev_swarm, stalled).
Proof. vm_compute. reflexivity. Qed.

Lemma stalled_ten_more :
  runGraph 10 (asShipped approvesWithFailure) dev_swarm stalled
  = Some (dev_swarm, applyDelta stalled (phaseOnly P_integrate)).
Proof. vm_compute. reflexivity. Qed.

Lemma stalled_review_never_integrates_witness :
  reviewStalled stalled
  /\ steps (dev_swarm, stalled) (dev_swarm, applyDelta stalled (phaseOnly P_integrate))
  /\ activeStories (applyDelta stalled (phaseOnly P_integrate)) = activeStories stalled.
Proof.
  assert (reviewStalled stalled) as Hst by (repeat split; vm_compute; reflexivity).
  assert (steps (dev_swarm, stalled)
                (dev_swarm, applyDelta stalled (phaseOnly P_integrate))) as Hrun
    by (apply (runGraph_steps 10 (asShipped approvesWithFailure));
        exact stalled_ten_more).
  split; [exact Hst |]. split; [exact Hrun |].
  destruct (stalled_review_never_integrates stalled _ Hst Hrun)
    as (_ & _ & _ & _ & _ & Hact & _).
  exact Hact.
Defined.

(** ** The run of an empty backlog *)

Lemma quiet_draft : forall prompt gen state,
  storyQueue state = [] -> smDraftNode prompt gen state = Ok (phaseOnly P_complete).
Proof. intros prompt gen state H. unfold smDraftNode. now rewrite H. Qed.

Lemma quiet_assign : forall state,
  activeStories state = [] -> assignNode state = Ok (phaseOnly P_execute).
Proof.
  intros state H. unfold assignNode, unassignedStories. rewrite H. simpl.
  now rewrite orb_true_r.
Qed.

Lemma quiet_dev : forall gen state,
  workingAgents state = [] -> devSwarmNode gen state = Ok (phaseOnly P_review).
Proof. intros gen state H. unfold devSwarmNode. now rewrite H. Qed.

Lemma quiet_qa : forall gen state,
  pendingChanges state = [] -> qaReviewNode gen state = Ok (phaseOnly P_integrate).
Proof. intros gen state H. unfold qaReviewNode. now rewrite H. Qed.

Lemma quiet_integrate : forall state,
  reviewedChanges state = [] -> integrateNode state = Ok (phaseOnly P_complete).
Proof. intros state H. unfold integrateNode. now rewrite H. Qed.

(** X9.  Started on a fresh state whose backlog is empty (what the start
    command passes), the run calls the generation service for nothing and
    reaches [END] after exactly five super-steps, one per node; the final
    state is the start state with the phase set to [complete]. *)
Theorem empty_backlog_run_ends : forall init o,
  fresh init ->
  storyQueue init = [] ->
  runGraph 5 o entryPoint init = Some (END, applyDelta init (phaseOnly P_complete))
  /\ forall k, k < 5 -> exists c, runGraph k o entryPoint init = Some c /\ fst c <> END.
Proof.
  intros init o (Ha & Hc & Hch & Htr & Hb & Hag) Hq.
  assert (workingAgents init = []) as Hw.
  { apply filter_none. intros a Hin. unfold agentIs.
    now rewrite (proj1 (Hag a Hin)). }
  assert (pendingChanges init = []) as Hp by (unfold pendingChanges; now rewrite Hch).
  assert (reviewedChanges init = []) as Hr by (unfold reviewedChanges; now rewrite Hch).
  assert (forall k,
            runGraph (S k) o sm_draft init
            = runGraph k o assign (applyDelta init (phaseOnly P_complete))) as E1.
  { intros k. rewrite runGraph_S by discriminate. simpl runNode.
    now rewrite (quiet_draft _ _ _ Hq). }
  assert (forall k p,
            runGraph (S k) o assign (applyDelta init (phaseOnly p))
            = runGraph k o dev_swarm (applyDelta init (phaseOnly P_execute))) as E2.
  { intros k p. rewrite runGraph_S by discriminate. simpl runNode.
    now rewrite (quiet_assign (applyDelta init (phaseOnly p)) Ha). }
  assert (forall k p,
            runGraph (S k) o dev_swarm (applyDelta init (phaseOnly p))
            = runGraph k o qa_review (applyDelta init (phaseOnly P_review))) as E3.
  { intros k p. rewrite runGraph_S by discriminate. simpl runNode.
    now rewrite (quiet_dev (devGen o) (applyDelta init (phaseOnly p)) Hw). }
  assert (forall k p,
            runGraph (S k) o qa_review (applyDelta init (phaseOnly p))
            = runGraph k o integrate (applyDelta init (phaseOnly P_integrate))) as E4.
  { intros k p. rewrite runGraph_S by discriminate. simpl runNode.
    rewrite (quiet_qa (qaGen o) (applyDelta init (phaseOnly p)) Hp).
    simpl nextNode. unfold needsMoreDev. simpl. now rewrite Htr. }
  assert (forall k p,
            runGraph (S k) o integrate (applyDelta init (phaseOnly p))
            = runGraph k o END (applyDelta init (phaseOnly P_complete))) as E5.
  { intros k p. rewrite runGraph_S by discriminate. simpl runNode.
    rewrite (quiet_integrate (applyDelta init (phaseOnly p)) Hr).
    simpl nextNode. unfold hasMoreWork. simpl. now rewrite Hq, Ha. }
  split.
  - unfold entryPoint. now rewrite E1, E2, E3, E4, E5.
  - intros k Hk. unfold entryPoint.
    destruct k as [|[|[|[|[|k]]]]]; try lia;
      rewrite ?E1, ?E2, ?E3, ?E4; simpl runGraph;
      eexists; (split; [reflexivity | discriminate]).
Qed.

Lemma empty_backlog_run_ends_witness :
  runGraph 5 alwaysSucceeds entryPoint (initialState [] None)
  = Some (END, applyDelta (initialState [] None) (phaseOnly P_complete)).
Proof.
  apply (empty_backlog_run_ends (initialState [] None) alwaysSucceeds).
  - apply initialState_fresh.
  - reflexivity.
Defined.

(** ** Where the draft node puts the head of the backlog *)

Lemma isBlocked_true : forall completed deps,
  isBlocked completed deps = true
  <-> exists d, In d (coalesce [] deps) /\ ~ In d (ids completed).
Proof.
  intros completed [ds|]; simpl.
  - rewrite existsb_exists. split; intros (d & Hd & H); exists d; (split; [exact Hd |]).
    + intros Hin. apply forallb_neq_In in Hin. congruence.
    + destruct (forallb _ completed) eqn:E; [reflexivity |].
      apply forallb_neq_In in E. contradiction.
  - split; [discriminate | intros (d & [] & _)].
Qed.

(** X10.  The draft node on a backlog with head [h].  When the call for
    the prompt throws, as it does with the files as they stand, the node
    rejects with that error and nothing is placed.  When the prompt is
    delivered and the generated draft parses, the node resolves, the head
    leaves the backlog, and the drafted story (status [ready], the generated
    tasks, the generated hard dependencies when there are some and the
    story's own otherwise) is appended to the active list if every id of
    that dependency list is the id of a completed story; if one is not, only
    its id is appended to the blocked list.  It lands in exactly one of the
    two, and the completed list is not touched. *)
Theorem draft_places_head : forall state h rest parsed systemPrompt e gen,
  storyQueue state = h :: rest ->
  let drafted :=
    draftStory h (coalesce [] (dj_tasks parsed)) (draftedDependencies parsed h) in
  let state' :=
    after (smDraftNode (Ok systemPrompt) (GenText (Some parsed)) state) state in
  smDraftNode (Throw e) gen state = Throw e
  /\ smDraftNode promptAsShipped gen state = Throw Personas.requireError
  /\ (exists d, smDraftNode (Ok systemPrompt) (GenText (Some parsed)) state = Ok d)
  /\ storyQueue state' = rest
  /\ completedStories state' = completedStories state
  /\ ((forall d, In d (coalesce [] (draftedDependencies parsed h)) ->
                 In d (ids (completedStories state))) ->
      activeStories state' = activeStories state ++ [drafted]
      /\ blockedStories state' = blockedStories state)
  /\ ((exists d, In d (coalesce [] (draftedDependencies parsed h))
                 /\ ~ In d (ids (completedStories state))) ->
      blockedStories state' = blockedStories state ++ [Story.id h]
      /\ activeStories state' = activeStories state).
Proof.
  intros state h rest parsed systemPrompt e gen Hq drafted state'. subst state'.
  unfold smDraftNode. rewrite Hq. cbv iota beta.
  split; [reflexivity |]. split; [reflexivity |].
  change (match dj_hardDependencies parsed with
          | Some hd => Some hd
          | None => Story.dependencies h
          end) with (draftedDependencies parsed h).
  fold drafted. simpl Story.dependencies.
  destruct (isBlocked (completedStories state) (draftedDependencies parsed h)) eqn:E;
    simpl;
    (split; [eexists; reflexivity | split; [reflexivity | split; [reflexivity | split]]]).
  - intros Hall. apply isBlocked_true in E as (d & Hd & Hn). elim Hn. now apply Hall.
  - intros _. now split.
  - intros _. now split.
  - intros Hex. apply isBlocked_true in Hex. congruence.
Qed.

Lemma draft_places_head_witness :
  storyQueue carryOver = [storyOnX]
  /\ storyQueue (after (smDraftNode (smPrompt alwaysSucceeds)
                          (draftGen alwaysSucceeds) carryOver) carryOver) = []
  /\ blockedStories (after (smDraftNode (smPrompt alwaysSucceeds)
                              (draftGen alwaysSucceeds) carryOver) carryOver)
     = ["B"]
  /\ smDraftNode promptAsShipped (draftGen alwaysSucceeds) carryOver
     = Throw Personas.requireError.
Proof.
  destruct (draft_places_head carryOver storyOnX []
              (mkDraftJson (Some [Task.mk "TASK-001" "do it" T_pending None]) None)
              "You are Bob, a Scrum Master." Personas.requireError
              (draftGen alwaysSucceeds) eq_refl)
    as (_ & Hshipped & _ & Hq & _ & _ & Hb).
  split; [reflexivity |].
  split; [exact Hq |].
  split; [| exact Hshipped].
  apply Hb. exists "X". split; [now left | intros []].
Defined.

(** ** Workers whose generation succeeds *)

(** X11.  In the execute node, when no generation call rejects, a working
    worker whose story is active and whose output parsed has its change
    appended, and ends [idle] with progress 100, keeping id, name and the
    recorded story; at most one change per working worker is appended; and,
    when worker ids are distinct, a worker that was not working is left as
    it was. *)
Theorem successful_worker_is_released : forall gen state a s j,
  In a (workingAgents state) ->
  findStory (activeStories state) (AgentStatus.assignedStory a) = Some s ->
  gen a s = GenText (Some j) ->
  (forall b t, In b (workingAgents state) ->
               findStory (activeStories state) (AgentStatus.assignedStory b) = Some t ->
               gen b t <> GenThrows) ->
  exists d changes,
    devSwarmNode gen state = Ok d
    /\ codeChanges (applyDelta state d) = codeChanges state ++ changes
    /\ In (changeOf a s j) changes
    /\ length changes <= length (workingAgents state)
    /\ (forall i, nth_error (agents state) i = Some a ->
                  nth_error (agents (applyDelta state d)) i = Some (finishAgent a))
    /\ (NoDup (map AgentStatus.id (agents state)) ->
        forall i b, nth_error (agents state) i = Some b ->
                    agentIs A_working b = false ->
                    nth_error (agents (applyDelta state d)) i = Some b).
Proof.
  intros gen state a s j Ha Hs Hg Hothers.
  unfold devSwarmNode. rewrite (isEmpty_false_In _ _ _ Ha).
  destruct (awaitAll (map (devPromise gen state) (workingAgents state)))
    as [changes|] eqn:Hall.
  2:{ apply awaitAll_None in Hall as (b & Hb & Hr). unfold devPromise in Hr.
      destruct (findStory _ (AgentStatus.assignedStory b)) as [t|] eqn:Ht;
        [|discriminate].
      specialize (Hothers b t Hb Ht).
      destruct (gen b t) as [|[x|]]; [congruence | discriminate | discriminate]. }
  assert (In (changeOf a s j) changes) as Hin.
  { apply (awaitAll_Some _ _ _ _ _ Hall). exists a. split; [exact Ha |].
    unfold devPromise. now rewrite Hs, Hg. }
  eexists. exists changes. split; [reflexivity |]. simpl.
  split; [reflexivity | split; [exact Hin | split; [| split]]].
  - clear -Hall. revert changes Hall.
    induction (workingAgents state) as [|x l IH]; simpl; intros changes Hall.
    + injection Hall as <-. simpl. lia.
    + destruct (devPromise gen state x); [discriminate | |].
      * specialize (IH _ Hall). lia.
      * destruct (awaitAll (map (devPromise gen state) l)) as [vs|];
          [| discriminate].
        injection Hall as <-. specialize (IH _ eq_refl). simpl. lia.
  - intros i Hi. rewrite nth_error_map, Hi. simpl.
    assert (existsb (fun c => CodeChange.agentId c =? AgentStatus.id a) changes = true)
      as ->; [| reflexivity].
    apply existsb_exists. exists (changeOf a s j). split; [exact Hin |].
    apply String.eqb_refl.
  - intros Hnd i b Hi Hb. rewrite nth_error_map, Hi. simpl.
    destruct (existsb _ changes) eqn:Hex; [| reflexivity].
    exfalso. apply existsb_exists in Hex as (c & Hc & Heq).
    apply String.eqb_eq in Heq.
    apply (awaitAll_Some _ _ _ _ _ Hall) in Hc as (w & Hw & Hv).
    unfold devPromise in Hv.
    destruct (findStory _ (AgentStatus.assignedStory w)) as [t|]; [|discriminate].
    destruct (gen w t) as [|[x|]]; try discriminate.
    injection Hv as <-. simpl in Heq.
    unfold workingAgents in Hw. apply filter_In in Hw as [Hw Hww].
    assert (w = b) as ->.
    { eapply NoDup_map_In_eq; eauto. eapply nth_error_In; exact Hi. }
    congruence.
Qed.

Lemma successful_worker_is_released_witness :
  exists d,
    devSwarmNode failsForDev1 executing = Ok d
    /\ nth_error (agents (applyDelta executing d)) 1
       = Some (AgentStatus.mk "dev-2" "Dev Agent 2" (Some "B") A_idle (Some 100)).
Proof.
  destruct (successful_worker_is_released failsForDev1 executing
              (AgentStatus.mk "dev-2" "Dev Agent 2" (Some "B") A_working (Some 0))
              (assignStory (backlogStory "B" []) "dev-2")
              (mkDevJson [FileChange.mk "src/a.ts" F_create (Some "x") None] [] "feat: a"))
    as (d & changes & Hd & _ & _ & _ & Hrel & _).
  - vm_compute. right. left. reflexivity.
  - reflexivity.
  - reflexivity.
  - intros b t _ _. unfold failsForDev1.
    destruct (AgentStatus.id b =? "dev-1"); discriminate.
  - exists d. split; [exact Hd |]. apply Hrel. reflexivity.
Defined.

(** ** The planning graph *)

Section PlanningRuns.

Variable includesValidated : string -> bool.
Variable Q : Planning.Oracle -> Prop.
Variable I : Planning.Config -> Prop.

Lemma planning_steps_invariant : forall c0,
  I c0 ->
  (forall c c', I c -> Planning.step includesValidated Q c c' -> I c') ->
  forall c, Planning.steps includesValidated Q c0 c -> I c.
Proof.
  intros c0 H0 Hstep c Hc. induction Hc as [c | a b c Hab IH Hbc].
  - assumption.
  - eapply Hstep; [apply IH; assumption | exact Hbc].
Qed.

End PlanningRuns.

Lemma planning_run_shape : forall includesValidated Q init c,
  Planning.steps includesValidated Q (Planning.entryPoint, init) c ->
  planningShape c.
Proof.
  intros incl Q init.
  apply planning_steps_invariant.
  - repeat split; discriminate.
  - intros c c' (Hready & Hshard & _) Hstep.
    inversion Hstep as [n o s u Hne _ Hrun]; subst. simpl in *.
    unfold Planning.ready in Hready. simpl in Hready.
    destruct n; simpl in Hrun; try congruence.
    + (* analyst *)
      unfold analystNode in Hrun. destruct (Planning.reply o); [discriminate |].
      injection Hrun as <-. repeat split; simpl; discriminate.
    + (* pm *)
      unfold pmNode in Hrun. destruct (projectBrief s) as [b|] eqn:Eb; [| discriminate].
      destruct (Planning.reply o); [discriminate |]. injection Hrun as <-.
      unfold planningShape, Planning.ready. simpl.
      unfold Planning.shouldIncludeUX. simpl. rewrite Eb.
      destruct (includeUX s); simpl; repeat split; discriminate.
    + (* ux *)
      destruct Hready as [Hb Hp]. unfold uxNode in Hrun.
      destruct (prd s) as [p|] eqn:Ep; [| discriminate].
      destruct (Planning.reply o); [discriminate |]. injection Hrun as <-.
      unfold planningShape, Planning.ready. simpl. rewrite Ep.
      repeat split; try discriminate; assumption.
    + (* architect *)
      destruct Hready as [Hb Hp]. unfold architectNode in Hrun.
      destruct (prd s) as [p|] eqn:Ep; [| discriminate].
      destruct (Planning.reply o); [discriminate |]. injection Hrun as <-.
      unfold planningShape, Planning.ready. simpl. rewrite Ep.
      repeat split; try discriminate; assumption.
    + (* po_validate *)
      destruct Hready as (Hb & Hp & Ha). unfold Planning.poValidateNode in Hrun.
      destruct (Planning.reply o) as [|t]; [discriminate |]. injection Hrun as <-.
      unfold planningShape, Planning.ready. simpl.
      unfold Planning.checkValidation. simpl.
      destruct (incl t); simpl; repeat split; try discriminate; assumption.
    + (* po_shard *)
      destruct Hready as (Hb & Hp & Ha).
      destruct (Hshard eq_refl) as (Hi & Hn & Hph).
      unfold poShardNode in Hrun.
      destruct (prd s) as [p|] eqn:Ep; [| discriminate].
      destruct (architecture s) as [a|] eqn:Ea; [| discriminate].
      destruct (Planning.reply o) as [|t]; [discriminate |].
      destruct (Planning.parse o t) as [err | parsed]; injection Hrun as <-;
        unfold planningShape, Planning.ready; simpl;
        unfold Planning.checkComplete; simpl.
      * rewrite Hph. simpl. repeat split; discriminate.
      * repeat split; try discriminate; try assumption.
        now exists parsed.
Qed.

(** X12.  In a planning run from the entry point, whatever the start state
    and the answers, the artifacts the node about to run requires are
    present: the "is required" errors of the PM, UX, architect and shard
    nodes are never raised, and a node can only reject because the
    generation call rejects. *)
Theorem planning_preconditions_hold : forall includesValidated Q init c,
  Planning.steps includesValidated Q (Planning.entryPoint, init) c ->
  Planning.ready c
  /\ forall o msg,
       Planning.runNode includesValidated (fst c) o (snd c) = Throw msg ->
       msg = generationError.
Proof.
  intros incl Q init c Hrun.
  destruct (planning_run_shape _ _ _ _ Hrun) as (Hready & _).
  split; [exact Hready |].
  intros o msg H. destruct c as [n s]. unfold Planning.ready in Hready.
  simpl in *. destruct n; simpl in H.
  - unfold analystNode in H. destruct (Planning.reply o); congruence.
  - unfold pmNode in H. destruct (projectBrief s); [| congruence].
    destruct (Planning.reply o); simpl in H; congruence.
  - destruct Hready as [_ Hp]. unfold uxNode in H.
    destruct (prd s); [| congruence].
    destruct (Planning.reply o); simpl in H; congruence.
  - destruct Hready as [_ Hp]. unfold architectNode in H.
    destruct (prd s); [| congruence].
    destruct (Planning.reply o); simpl in H; congruence.
  - unfold Planning.poValidateNode in H. destruct (Planning.reply o); congruence.
  - destruct Hready as (_ & Hp & Ha). unfold poShardNode in H.
    destruct (prd s); [| congruence]. destruct (architecture s); [| congruence].
    destruct (Planning.reply o); simpl in H; [congruence |].
    destruct (Planning.parse o s0); discriminate.
  - discriminate.
Qed.

(** X13.  A planning run is at [END] only right after a shard node whose
    reply parsed, entered after a validation that passed: the phase is
    [complete], no validation issue is recorded, no user input is asked
    for, the epics and stories are those of that one parsed reply, and so
    every story is a [draft] that carries the id of one of the epics. *)
Theorem planning_ends_after_valid_shard : forall includesValidated Q init state,
  Planning.steps includesValidated Q (Planning.entryPoint, init) (Planning.END, state) ->
  currentPhase state = PP_complete
  /\ validationIssues state = []
  /\ needsUserInput state = false
  /\ Planning.sharded state
  /\ forall story, In story (stories state) ->
       Story.status story = S_draft
       /\ exists epic, In epic (epics state) /\ Story.epicId story = Epic.id epic.
Proof.
  intros incl Q init state Hrun.
  destruct (planning_run_shape _ _ _ _ Hrun) as (_ & _ & Hend).
  destruct (Hend eq_refl) as (Hph & Hi & Hn & Hsh). simpl in *.
  repeat split; try assumption.
  - destruct Hsh as (parsed & _ & Hs). rewrite Hs in H.
    apply in_flat_map in H as (e & _ & Hin).
    apply in_map_iff in Hin as (r & <- & _). reflexivity.
  - destruct Hsh as (parsed & He & Hs). rewrite Hs in H.
    apply in_flat_map in H as (e & Hein & Hin).
    apply in_map_iff in Hin as (r & <- & _).
    exists (plannedEpic e). split; [| reflexivity].
    rewrite He. now apply in_map.
Qed.

Lemma planning_runGraph_S : forall includesValidated k os n state,
  n <> Planning.END ->
  Planning.runGraph includesValidated (S k) os n state =
  match Planning.runNode includesValidated n (os 0) state with
  | Throw _ => None
  | Ok u =>
      Planning.runGraph includesValidated k (fun i => os (S i))
        (Planning.nextNode n (applyPlanning state u)) (applyPlanning state u)
  end.
Proof. intros incl k os n state Hn. destruct n; try reflexivity. congruence. Qed.

Lemma planning_Node_eq_END : forall n : Planning.Node,
  n = Planning.END \/ n <> Planning.END.
Proof. intros []; (now left) || (right; discriminate). Qed.

Lemma planning_runGraph_steps : forall includesValidated fuel os n state c0 c,
  Planning.steps includesValidated (fun _ => True) c0 (n, state) ->
  Planning.runGraph includesValidated fuel os n state = Some c ->
  Planning.steps includesValidated (fun _ => True) c0 c.
Proof.
  intros incl fuel. induction fuel as [|k IH]; intros os n state c0 c H0 H.
  - injection H as <-. exact H0.
  - destruct (planning_Node_eq_END n) as [-> | Hn].
    + simpl in H. injection H as <-. exact H0.
    + rewrite planning_runGraph_S in H by assumption.
      destruct (Planning.runNode incl n (os 0) state) as [u|msg] eqn:E;
        [| discriminate].
      eapply IH; [| exact H].
      eapply Planning.steps_snoc; [exact H0 |].
      eapply Planning.step_run with (o := os 0); auto.
Qed.

Lemma planningAfter_run : forall k,
  Planning.steps saysValidated (fun _ => True)
    (Planning.entryPoint, Planning.initialState "a todo app" None) (planningAfter k).
Proof.
  intros k. unfold planningAfter.
  destruct (Planning.runGraph saysValidated k planningOk Planning.entryPoint
              (Planning.initialState "a todo app" None)) as [c|] eqn:E.
  - eapply planning_runGraph_steps; [apply Planning.steps_refl | exact E].
  - apply Planning.steps_refl.
Qed.

Lemma planning_preconditions_hold_witness :
  fst (planningAfter 4) = Planning.po_shard /\ Planning.ready (planningAfter 4).
Proof.
  split; [vm_compute; reflexivity |].
  exact (proj1 (planning_preconditions_hold _ _ _ _ (planningAfter_run 4))).
Defined.

Lemma planningAfter_END : planningAfter 5 = (Planning.END, snd (planningAfter 5)).
Proof. vm_compute. reflexivity. Qed.

Lemma planning_ends_after_valid_shard_witness :
  currentPhase (snd (planningAfter 5)) = PP_complete
  /\ length (stories (snd (planningAfter 5))) = 1.
Proof.
  assert (Planning.steps saysValidated (fun _ => True)
            (Planning.entryPoint, Planning.initialState "a todo app" None)
            (Planning.END, snd (planningAfter 5))) as Hrun
    by (rewrite <- planningAfter_END; apply planningAfter_run).
  destruct (planning_ends_after_valid_shard _ _ _ _ Hrun) as (Hph & _).
  split; [exact Hph | vm_compute; reflexivity].
Defined.

(** ** A validation that never passes *)

Lemma planning_runGraph_steps_with : forall includesValidated
    (Q : Planning.Oracle -> Prop) fuel os n state c0 c,
  (forall k, Q (os k)) ->
  Planning.steps includesValidated Q c0 (n, state) ->
  Planning.runGraph includesValidated fuel os n state = Some c ->
  Planning.steps includesValidated Q c0 c.
Proof.
  intros incl Q fuel. induction fuel as [|k IH]; intros os n state c0 c HQ H0 H.
  - injection H as <-. exact H0.
  - destruct (planning_Node_eq_END n) as [-> | Hn].
    + simpl in H. injection H as <-. exact H0.
    + rewrite planning_runGraph_S in H by assumption.
      destruct (Planning.runNode incl n (os 0) state) as [u|msg] eqn:E;
        [| discriminate].
      eapply (IH (fun i => os (S i))); [intros i; apply HQ | | exact H].
      eapply Planning.steps_snoc; [exact H0 |].
      eapply Planning.step_run with (o := os 0); auto.
Qed.

Lemma unvalidated_stays_before_shard : forall includesValidated init c,
  Planning.steps includesValidated (Planning.failsValidation includesValidated)
    (Planning.entryPoint, init) c ->
  fst c <> Planning.po_shard /\ fst c <> Planning.END.
Proof.
  intros incl init c Hrun.
  apply (planning_steps_invariant incl (Planning.failsValidation incl)
           (fun c => fst c <> Planning.po_shard /\ fst c <> Planning.END)
           (Planning.entryPoint, init)); [split; discriminate | | exact Hrun].
  clear c Hrun. intros c c' [Hs He] Hstep.
  inversion Hstep as [n o state u Hne HQ Hnode]; subst. simpl in *.
  destruct n; try congruence; simpl.
  - split; discriminate.
  - unfold Planning.shouldIncludeUX. destruct (includeUX _); split; discriminate.
  - split; discriminate.
  - split; discriminate.
  - simpl in Hnode. unfold Planning.poValidateNode in Hnode.
    destruct (Planning.reply o) as [|t] eqn:Et; [discriminate |].
    rewrite (HQ t Et) in Hnode. injection Hnode as <-.
    unfold Planning.checkValidation. simpl. split; discriminate.
Qed.

(** X14.  If no reply of the generation service is a text that passes the
    validation test, the planning run never reaches the shard node or
    [END]: every configuration it reaches is at one of the nodes analyst,
    PM, UX, architect, validation.  Hence [graph.invoke] does not return a
    final state, whatever the recursion limit: nothing in the graph takes
    the run out of the loop PM, (UX,) architect, validation. *)
Theorem unvalidated_planning_never_shards : forall includesValidated,
  (forall init c,
     Planning.steps includesValidated (Planning.failsValidation includesValidated)
       (Planning.entryPoint, init) c ->
     fst c <> Planning.po_shard /\ fst c <> Planning.END)
  /\ (forall os init recursionLimit final,
        (forall k, Planning.failsValidation includesValidated (os k)) ->
        Planning.invoke includesValidated recursionLimit os init
        <> Planning.Returns final).
Proof.
  intros incl. split; [apply unvalidated_stays_before_shard |].
  intros os init limit final HQ H. unfold Planning.invoke in H.
  destruct (Planning.runGraph incl limit os Planning.entryPoint init)
    as [[n state]|] eqn:E; [| discriminate].
  assert (n <> Planning.END) as Hn.
  { apply (unvalidated_stays_before_shard incl init (n, state)).
    eapply planning_runGraph_steps_with;
      [exact HQ | apply Planning.steps_refl | exact E]. }
  destruct n; try discriminate. congruence.
Qed.

Lemma planningNo_fails : forall k, Planning.failsValidation saysValidated (planningNo k).
Proof. intros k t H. injection H as <-. reflexivity. Qed.

Lemma unvalidated_planning_never_shards_witness :
  fst (planningNoAfter 9) = Planning.po_validate
  /\ (fst (planningNoAfter 9) <> Planning.po_shard
      /\ fst (planningNoAfter 9) <> Planning.END)
  /\ Planning.invoke saysValidated defaultRecursionLimit planningNo
       (Planning.initialState "a todo app" None)
     = Planning.OutOfSteps.
Proof.
  destruct (unvalidated_planning_never_shards saysValidated) as [Hsafe Hinvoke].
  split; [vm_compute; reflexivity |].
  split.
  - apply (Hsafe (Planning.initialState "a todo app" None)).
    unfold planningNoAfter.
    destruct (Planning.runGraph saysValidated 9 planningNo Planning.entryPoint
                (Planning.initialState "a todo app" None)) as [c|] eqn:E.
    + eapply planning_runGraph_steps_with;
        [exact planningNo_fails | apply Planning.steps_refl | exact E].
    + apply Planning.steps_refl.
  - pose proof (Hinvoke planningNo (Planning.initialState "a todo app" None)
                  defaultRecursionLimit) as Hnot.
    destruct (Planning.invoke saysValidated defaultRecursionLimit planningNo
                (Planning.initialState "a todo app" None)) as [final| |] eqn:E.
    + elim (Hnot final planningNo_fails). reflexivity.
    + vm_compute in E. discriminate.
    + reflexivity.
Defined.

(** ** The UX node runs only on request *)

(** X15.  No node changes [includeUX]; when it is false at the start, the
    run never enters the UX node and the UX specification of the start
    state is never replaced. *)
Theorem ux_only_on_request : forall includesValidated Q init c,
  Planning.steps includesValidated Q (Planning.entryPoint, init) c ->
  includeUX (snd c) = includeUX init
  /\ (includeUX init = false ->
      fst c <> Planning.ux /\ uxSpec (snd c) = uxSpec init).
Proof.
  intros incl Q init.
  apply planning_steps_invariant.
  - simpl. split; [reflexivity |]. intros _. split; [discriminate | reflexivity].
  - intros c c' (Hinc & Hux) Hstep.
    inversion Hstep as [n o s u Hne _ Hrun]; subst. simpl in *.
    split; [exact Hinc |]. intros Hfalse. destruct (Hux Hfalse) as [Hn Hspec].
    assert (pd_uxSpec (pu_delta u) = None) as Hnone.
    { destruct n; simpl in Hrun; try congruence.
      - unfold analystNode in Hrun. destruct (Planning.reply o); [discriminate |].
        now injection Hrun as <-.
      - unfold pmNode in Hrun. destruct (projectBrief s); [| discriminate].
        destruct (Planning.reply o); [discriminate |]. now injection Hrun as <-.
      - unfold architectNode in Hrun. destruct (prd s); [| discriminate].
        destruct (Planning.reply o); [discriminate |]. now injection Hrun as <-.
      - unfold Planning.poValidateNode in Hrun.
        destruct (Planning.reply o); [discriminate |]. now injection Hrun as <-.
      - unfold poShardNode in Hrun. destruct (prd s); [| discriminate].
        destruct (architecture s); [| discriminate].
        destruct (Planning.reply o); [discriminate |].
        destruct (Planning.parse o s0); now injection Hrun as <-. }
    rewrite Hnone. split; [| exact Hspec].
    destruct n; simpl; try discriminate.
    + unfold Planning.shouldIncludeUX. simpl. rewrite Hinc, Hfalse. discriminate.
    + unfold Planning.checkValidation. destruct (negb _); discriminate.
    + unfold Planning.checkComplete. destruct (currentPhase _); discriminate.
Qed.

Lemma ux_only_on_request_witness :
  includeUX (snd (planningAfter 3)) = false
  /\ fst (planningAfter 3) <> Planning.ux.
Proof.
  destruct (ux_only_on_request _ _ _ _ (planningAfter_run 3)) as [Hinc Hux].
  split; [exact Hinc |].
  apply Hux. reflexivity.
Defined.

(** ** The OpenAI-compatible adapter *)

(** X16.  What a workflow node reads from an adapted completion: the
    content of the first choice, and the node's fallback text when there is
    no choice or when that content is null or empty; later choices, finish
    reasons and usage play no part. *)
Theorem adapter_text_reaches_node : forall fallback response,
  OpenAI.responseText fallback (OpenAI.convertOpenAIToGemini response)
  = match OpenAI.choices response with
    | [] => fallback
    | first :: _ =>
        match OpenAI.c_content first with
        | Some t => if t =? "" then fallback else t
        | None => fallback
        end
    end.
Proof.
  intros fallback [[|first rest] u]; [reflexivity |].
  unfold OpenAI.responseText, OpenAI.convertOpenAIToGemini. simpl.
  destruct (OpenAI.c_content first) as [t|]; reflexivity.
Qed.

Lemma contentMessage_role : forall item,
  OpenAI.m_role (OpenAI.contentMessage item) <> Some "model".
Proof.
  intros [s | o]; simpl; [discriminate |].
  destruct (OpenAI.role o) as [[r|]|]; try discriminate.
  destruct (r =? "model") eqn:E; [discriminate |].
  apply String.eqb_neq in E. congruence.
Qed.

Lemma convert_roles : forall contents m,
  In m (OpenAI.convertGeminiToOpenAI contents) ->
  OpenAI.m_role m <> Some "model".
Proof.
  intros [item | [|first rest]] m H; simpl in H.
  - destruct (OpenAI.isPart item); destruct H as [<- | []];
      [discriminate | apply contentMessage_role].
  - contradiction.
  - destruct (OpenAI.isPart first).
    + destruct H as [<- | []]. discriminate.
    + change (In m (map OpenAI.contentMessage (first :: rest))) in H.
      apply in_map_iff in H as (x & <- & _). apply contentMessage_role.
Qed.

(** X17.  The messages sent to the endpoint never carry the role [model]
    (a [model] content is sent as [assistant]); a system instruction that
    yields a non-empty text is sent as one [system] message placed first,
    and one that yields the empty text adds no message. *)
Theorem request_messages_roles : forall contents si,
  (forall m, In m (OpenAI.requestMessages contents si) ->
             OpenAI.m_role m <> Some "model")
  /\ (OpenAI.systemMessage si <> "" ->
      OpenAI.requestMessages contents si
      = OpenAI.mkMessage (Some "system") (OpenAI.systemMessage si)
        :: OpenAI.convertGeminiToOpenAI contents)
  /\ (OpenAI.systemMessage si = "" ->
      OpenAI.requestMessages contents si = OpenAI.convertGeminiToOpenAI contents).
Proof.
  intros contents si. unfold OpenAI.requestMessages, OpenAI.nonEmpty.
  destruct (OpenAI.systemMessage si =? "") eqn:E; simpl.
  - apply String.eqb_eq in E. repeat split.
    + apply convert_roles.
    + congruence.
  - apply String.eqb_neq in E. repeat split.
    + intros m [<- | H]; [discriminate | now apply (convert_roles contents)].
    + congruence.
Qed.

Lemma request_messages_roles_witness :
  OpenAI.requestMessages
    (OpenAI.One (OpenAI.IObj (OpenAI.mkObj None (Some (Some "model"))
                                (Some [OpenAI.PStr "hello"]))))
    (Some (OpenAI.SIString "be brief"))
  = [OpenAI.mkMessage (Some "system") "be brief";
     OpenAI.mkMessage (Some "assistant") "hello"].
Proof.
  destruct (request_messages_roles
              (OpenAI.One (OpenAI.IObj (OpenAI.mkObj None (Some (Some "model"))
                                          (Some [OpenAI.PStr "hello"]))))
              (Some (OpenAI.SIString "be brief"))) as (_ & H & _).
  rewrite H; [reflexivity | discriminate].
Defined.

(** X18.  The request of a workflow node (one [user] content with the
    prompt as its only part, the persona prompt as system instruction)
    reaches the endpoint as the persona prompt in a [system] message
    followed by the prompt in a [user] message; with an empty persona
    prompt only the [user] message is sent. *)
Theorem workflow_request_messages : forall systemPrompt userPrompt,
  OpenAI.requestMessages (workflowContents userPrompt)
    (Some (OpenAI.SIString systemPrompt))
  = (if systemPrompt =? "" then []
     else [OpenAI.mkMessage (Some "system") systemPrompt])
    ++ [OpenAI.mkMessage (Some "user") userPrompt].
Proof.
  intros systemPrompt userPrompt.
  unfold OpenAI.requestMessages, OpenAI.nonEmpty. simpl OpenAI.systemMessage.
  assert (OpenAI.convertGeminiToOpenAI (workflowContents userPrompt)
          = [OpenAI.mkMessage (Some "user") userPrompt]) as ->.
  { unfold workflowContents. simpl. unfold OpenAI.joinLines. simpl.
    unfold OpenAI.nonEmpty. destruct (userPrompt =? "") eqn:E; simpl; [| reflexivity].
    apply String.eqb_eq in E. now subst. }
  destruct (systemPrompt =? ""); reflexivity.
Qed.

(** *** The token estimate *)

Lemma fold_left_sum : forall (A : Type) (f : A -> nat) l acc,
  fold_left (fun sum x => sum + f x) l acc = acc + list_sum (map f l).
Proof.
  intros A f l. induction l as [|x l IH]; intros acc; simpl; [lia |].
  rewrite IH. lia.
Qed.

Lemma totalChars_Arr : forall items,
  OpenAI.totalChars (OpenAI.Arr items) = list_sum (map OpenAI.itemChars items).
Proof. intros items. simpl. now rewrite fold_left_sum. Qed.

(** X19.  The token estimate is the character count divided by four and
    rounded up: it is zero exactly for no character and otherwise within
    three characters of four times itself; the characters of an array are
    the sum over its items, a single item counts as the array holding only
    it, and so the estimate of a concatenation never exceeds the sum of the
    estimates. *)
Theorem token_estimate_bounds : forall contents,
  OpenAI.totalChars contents <= 4 * OpenAI.countTokens contents
  /\ 4 * OpenAI.countTokens contents < OpenAI.totalChars contents + 4
  /\ (OpenAI.countTokens contents = 0 <-> OpenAI.totalChars contents = 0)
  /\ (forall item,
        OpenAI.totalChars (OpenAI.One item) = OpenAI.totalChars (OpenAI.Arr [item]))
  /\ (forall l1 l2,
        OpenAI.totalChars (OpenAI.Arr (l1 ++ l2))
        = OpenAI.totalChars (OpenAI.Arr l1) + OpenAI.totalChars (OpenAI.Arr l2))
  /\ (forall l1 l2,
        OpenAI.countTokens (OpenAI.Arr (l1 ++ l2))
        <= OpenAI.countTokens (OpenAI.Arr l1) + OpenAI.countTokens (OpenAI.Arr l2)).
Proof.
  intros contents. unfold OpenAI.countTokens.
  set (n := OpenAI.totalChars contents).
  pose proof (Nat.div_mod_eq (n + 3) 4) as Hdm.
  pose proof (Nat.mod_upper_bound (n + 3) 4 ltac:(lia)) as Hmod.
  assert (forall l1 l2,
            OpenAI.totalChars (OpenAI.Arr (l1 ++ l2))
            = OpenAI.totalChars (OpenAI.Arr l1) + OpenAI.totalChars (OpenAI.Arr l2))
    as Hadd.
  { intros l1 l2. rewrite !totalChars_Arr, map_app, list_sum_app. reflexivity. }
  split; [lia | split; [lia | split; [split; lia | split; [| split]]]].
  - intros item. simpl. reflexivity.
  - exact Hadd.
  - intros l1 l2. rewrite Hadd.
    set (a := OpenAI.totalChars (OpenAI.Arr l1)).
    set (b := OpenAI.totalChars (OpenAI.Arr l2)).
    pose proof (Nat.div_mod_eq (a + b + 3) 4).
    pose proof (Nat.mod_upper_bound (a + b + 3) 4 ltac:(lia)).
    pose proof (Nat.div_mod_eq (a + 3) 4).
    pose proof (Nat.mod_upper_bound (a + 3) 4 ltac:(lia)).
    pose proof (Nat.div_mod_eq (b + 3) 4).
    pose proof (Nat.mod_upper_bound (b + 3) 4 ltac:(lia)).
    lia.
Qed.

Lemma token_estimate_bounds_witness :
  OpenAI.countTokens (workflowContents "hello") = 2.
Proof.
  destruct (token_estimate_bounds (workflowContents "hello")) as (Hlo & Hhi & _).
  assert (OpenAI.totalChars (workflowContents "hello") = 5) as E by reflexivity.
  rewrite E in Hlo, Hhi. lia.
Defined.

(** ** Building the content generator *)

Lemma orUndefined_idem : forall v,
  ContentGenerator.orUndefined (ContentGenerator.orUndefined v)
  = ContentGenerator.orUndefined v.
Proof.
  intros [s|]; simpl; [| reflexivity].
  destruct (s =? "") eqn:E; simpl; [reflexivity | now rewrite E].
Qed.

(** X20.  In OpenAI-compatible mode the generator built from the
    environment exists exactly when [OPENAI_BASE_URL] and [OPENAI_MODEL] are
    set and non-empty: it then talks to that URL and model, with the key
    [OPENAI_API_KEY], or [not-needed] when that one is unset or empty;
    otherwise creation throws the "requires openaiBaseURL and openaiModel"
    error. *)
Theorem openai_mode_needs_url_and_model : forall rt proxy env,
  (forall url model,
     ContentGenerator.orUndefined (ContentGenerator.OPENAI_BASE_URL env) = Some url ->
     ContentGenerator.orUndefined (ContentGenerator.OPENAI_MODEL env) = Some model ->
     ContentGenerator.createContentGenerator rt
       (ContentGenerator.createContentGeneratorConfig proxy env
          (Some ContentGenerator.OPENAI_COMPATIBLE))
     = Ok (ContentGenerator.OpenAICompatible url
             (orDefault (ContentGenerator.OPENAI_API_KEY env) "not-needed") model))
  /\ (ContentGenerator.orUndefined (ContentGenerator.OPENAI_BASE_URL env) = None
      \/ ContentGenerator.orUndefined (ContentGenerator.OPENAI_MODEL env) = None ->
      ContentGenerator.createContentGenerator rt
        (ContentGenerator.createContentGeneratorConfig proxy env
           (Some ContentGenerator.OPENAI_COMPATIBLE))
      = Throw "OpenAI-compatible mode requires openaiBaseURL and openaiModel in config").
Proof.
  intros rt proxy env.
  unfold ContentGenerator.createContentGenerator,
    ContentGenerator.createContentGeneratorConfig. simpl.
  rewrite !orUndefined_idem. split.
  - intros url model -> ->. unfold ContentGenerator.newOpenAI, orDefault.
    now rewrite orUndefined_idem.
  - intros [-> | ->]; [reflexivity |].
    destruct (ContentGenerator.orUndefined (ContentGenerator.OPENAI_BASE_URL env));
      reflexivity.
Qed.

Lemma openai_mode_needs_url_and_model_witness :
  ContentGenerator.createContentGenerator
    (ContentGenerator.mkRuntime "GeminiCLI/1.0 (linux; x64)" false "id")
    (ContentGenerator.createContentGeneratorConfig None
       (ContentGenerator.mkEnv None None None None
          (Some "http://localhost:11434/v1") (Some "") None)
       (Some ContentGenerator.OPENAI_COMPATIBLE))
  = Throw "OpenAI-compatible mode requires openaiBaseURL and openaiModel in config".
Proof.
  apply openai_mode_needs_url_and_model. right. reflexivity.
Defined.

(** X21.  The planning command always gets an OpenAI-compatible generator,
    whatever the environment: the URL, the model and the key are the three
    [OPENAI_*] variables, and when one is unset or empty its default,
    [http://localhost:8080/v1], [llama-3.2-3b] and [not-needed]; the
    "requires" error cannot occur on this path. *)
Theorem planning_generator_defaults : forall rt env,
  ContentGenerator.planningGenerator rt env
  = Ok (ContentGenerator.OpenAICompatible
          (orDefault (ContentGenerator.OPENAI_BASE_URL env) "http://localhost:8080/v1")
          (orDefault (ContentGenerator.OPENAI_API_KEY env) "not-needed")
          (orDefault (ContentGenerator.OPENAI_MODEL env) "llama-3.2-3b")).
Proof.
  intros rt env.
  assert (forall v fallback,
            fallback <> "" ->
            ContentGenerator.orUndefined (Some (orDefault v fallback))
            = Some (orDefault v fallback)) as Hkeep.
  { intros v fallback Hf. unfold orDefault.
    destruct (ContentGenerator.orUndefined v) as [s|] eqn:E; simpl.
    - destruct v as [t|]; simpl in E; [| discriminate].
      destruct (t =? "") eqn:Et; [discriminate |]. injection E as <-. now rewrite Et.
    - apply String.eqb_neq in Hf. now rewrite Hf. }
  unfold ContentGenerator.planningGenerator, ContentGenerator.createContentGenerator.
  simpl ContentGenerator.authType. cbv iota.
  simpl ContentGenerator.openaiBaseURL. simpl ContentGenerator.openaiModel.
  change (match ContentGenerator.orUndefined (ContentGenerator.OPENAI_BASE_URL env) with
          | Some u => u
          | None => "http://localhost:8080/v1"
          end)
    with (orDefault (ContentGenerator.OPENAI_BASE_URL env) "http://localhost:8080/v1").
  change (match ContentGenerator.orUndefined (ContentGenerator.OPENAI_MODEL env) with
          | Some m => m
          | None => "llama-3.2-3b"
          end)
    with (orDefault (ContentGenerator.OPENAI_MODEL env) "llama-3.2-3b").
  rewrite !Hkeep by discriminate.
  reflexivity.
Qed.

(** ** A run drafts once *)

Lemma unblock_fold_length : forall state l acc,
  length (snd (fold_left (unblockStep state) l acc)) <= length (snd acc) + length l.
Proof.
  intros state l. induction l as [|x l IH]; intros acc; simpl; [lia |].
  specialize (IH (unblockStep state acc x)).
  assert (length (snd (unblockStep state acc x)) <= S (length (snd acc))) as Hstep.
  { unfold unblockStep. destruct (find _ (storyQueue state)); [| lia].
    destruct (allDepsCompleted _ _); simpl; [lia |].
    rewrite length_app. simpl. lia. }
  lia.
Qed.

Lemma runNode_drafted : forall n o state d,
  n <> sm_draft ->
  runNode n o state = Ok d ->
  drafted (applyDelta state d) <= drafted state.
Proof.
  intros n o state d Hn H. unfold drafted. destruct n; simpl in H.
  - congruence.
  - unfold assignNode in H. destruct (_ || _); injection H as <-; simpl; [lia |].
    rewrite length_map. lia.
  - apply devSwarmNode_stories in H as (E1 & E2 & _ & E4).
    unfold applyDelta. simpl. rewrite E1, E2, E4. simpl. lia.
  - apply qaReviewNode_stories in H as (E1 & E2 & _ & E4 & _).
    unfold applyDelta. simpl. rewrite E1, E2, E4. simpl. lia.
  - unfold integrateNode in H. destruct (isEmpty _); injection H as <-; simpl; [lia |].
    rewrite length_app.
    pose proof (filter_split_length _
                  (fun s => includes (completedStoryIds state) (Story.id s))
                  (activeStories state)) as Hsplit.
    pose proof (unblock_fold_length state (blockedStories state) ([], [])) as Hb.
    unfold remainingActive, newlyCompleted, unblockLoop.
    rewrite length_map. simpl in Hb. lia.
  - injection H as <-. simpl. lia.
Qed.

(** X22.  The draft node runs once per run: a run from the entry point
    never comes back to it, and in a run from a fresh state at most one
    story ever leaves the backlog for the active, completed or blocked set,
    however long the backlog and however many workers are idle. *)
Theorem run_drafts_one_story :
  (forall init c, steps (entryPoint, init) c ->
                  c = (entryPoint, init) \/ fst c <> sm_draft)
  /\ forall c, SwarmRun c -> drafted (snd c) <= 1.
Proof.
  split.
  - intros init.
    apply (steps_invariant
             (fun c => c = (entryPoint, init) \/ fst c <> sm_draft)).
    + now left.
    + intros c c' _ Hstep. right. inversion Hstep; subst. simpl.
      apply nextNode_not_draft.
  - intros c (init & Hfresh & Hrun).
    assert ((fst c = sm_draft /\ fresh (snd c))
            \/ (fst c <> sm_draft /\ drafted (snd c) <= 1)) as [[_ Hf] | [_ H]].
    { apply (steps_invariant
               (fun c => (fst c = sm_draft /\ fresh (snd c))
                         \/ (fst c <> sm_draft /\ drafted (snd c) <= 1))
               (entryPoint, init)); [now left | | exact Hrun].
      clear c Hrun. intros c c' Hc Hstep. right.
      inversion Hstep as [n o state d Hne Hnode]; subst. simpl in *.
      split; [apply nextNode_not_draft |].
      destruct Hc as [[-> Hf] | [Hn Hle]].
      - destruct Hf as (Ha & Hc & _ & _ & Hb & _).
        simpl in Hnode. unfold smDraftNode in Hnode. unfold drafted.
        destruct (storyQueue state);
          [injection Hnode as <-; simpl; rewrite Ha, Hc, Hb; simpl; lia |].
        destruct (smPrompt o) as [systemPrompt|e]; [| discriminate].
        destruct (draftGen o) as [|[parsed|]]; [discriminate | |].
        + destruct (isBlocked _ _); injection Hnode as <-; simpl;
            rewrite Ha, Hc, Hb; simpl; lia.
        + injection Hnode as <-. simpl. rewrite Ha, Hc, Hb. simpl. lia.
      - pose proof (runNode_drafted _ _ _ _ Hn Hnode). lia. }
    + destruct Hf as (Ha & Hc & _ & _ & Hb & _).
      unfold drafted. rewrite Ha, Hc, Hb. simpl. lia.
    + exact H.
Qed.

Lemma run_drafts_one_story_witness :
  SwarmRun (assign, scenarioLoop) /\ drafted scenarioLoop <= 1.
Proof.
  split; [exact scenario_run |].
  exact (proj2 run_drafts_one_story (assign, scenarioLoop) scenario_run).
Defined.
